(** * Screen-space reflections: the temporal compose shader and the
      reactive effect controller

    Two source files are embedded here.

    - [src/ComposeReflectionsPass.js]: the fragment shader that blends the
      reflections of the current frame with those of the last frame.
      GLSL floats are read as real numbers (exact arithmetic, no rounding),
      a [sampler2D] as a function from texture coordinates to texels.
    - the [SSREffect] class: the reactive option setters installed by
      [makeOptionsReactive], [setSize], and the two methods that switch the
      box-projected environment map on and off.  JavaScript values are an
      inductive type, objects used as dictionaries are [gmap]s, and a thrown
      exception is the [Throw] result.  The classes of the two passes are
      imported by the effect, not defined in it: of a pass the model keeps the
      material the effect writes to and the list of the [setSize] calls the
      pass received.

    [samples] is the effect's own property of that name, the one the setters
    assign on line 99.  No line of the class reads it: the count that
    [update] copies into the shader (line 284) is [temporalResolvePass.samples],
    which the pass class keeps and no line of the effect writes.
    Configuration keys are taken not to be names of members of the effect
    ([samples], [lastSize], [setSize], [uniforms], the two passes): an
    accessor defined under such a name would replace the member. *)

From Stdlib Require Import Reals Lra Factorial Arith QArith Qcanon Qround.
From stdpp Require Import gmap strings list numbers.

(* ===================================================================== *)
(** ** The compose shader                                                 *)
(* ===================================================================== *)

Module ComposeReflectionsPass.

Local Open Scope R_scope.

Record vec2 := Vec2 { vx : R; vy : R }.
Record vec3 := Vec3 { r : R; g : R; b : R }.
Record vec4 := Vec4 { rgb : vec3; a : R }.

(** A bound texture, and [texture2D] reading it. *)
Definition sampler2D := vec2 -> vec4.
Definition texture2D (s : sampler2D) (uv : vec2) : vec4 := s uv.

(** [#define EULER 2.718281828459045] *)
Definition EULER : R := 2.718281828459045.

(** The GLSL built-ins the shader calls. *)
Definition mix (x y t : R) : R := x * (1 - t) + y * t.

Definition mix3 (x y : vec3) (t : R) : vec3 :=
  Vec3 (mix (r x) (r y) t) (mix (g x) (g y) t) (mix (b x) (b y) t).

Definition length (v : vec3) : R := sqrt (r v * r v + g v * g v + b v * b v).

Definition add3 (u v : vec3) : vec3 := Vec3 (r u + r v) (g u + g v) (b u + b v).
Definition div3 (u : vec3) (k : R) : vec3 := Vec3 (r u / k) (g u / k) (b u / k).
Definition sub2 (u v : vec2) : vec2 := Vec2 (vx u - vx v) (vy u - vy v).

(** [texture2D(velocityBuffer, vUv).xy] *)
Definition xy (t : vec4) : vec2 := Vec2 (r (rgb t)) (g (rgb t)).

(** Lines 50-51: [float mixVal = 1. / samples; mixVal /= EULER;] *)
Definition mixVal (samples : R) : R := (1 / samples) / EULER.

(** Lines 45-48: the history colour the temporal branch blends with.  The
    texel of the last frame at [vUv] has the texel at [vUv - velUv] added to
    it and is then halved. *)
Definition lastFrameReflectionsProjectedTexel
    (lastFrameReflectionsBuffer velocityBuffer : sampler2D) (vUv : vec2) : vec4 :=
  let velUv := xy (texture2D velocityBuffer vUv) in
  texture2D lastFrameReflectionsBuffer (sub2 vUv velUv).

Definition history
    (lastFrameReflectionsBuffer velocityBuffer : sampler2D) (vUv : vec2) : vec3 :=
  let lastFrameReflectionsTexel := texture2D lastFrameReflectionsBuffer vUv in
  div3 (add3 (rgb lastFrameReflectionsTexel)
             (rgb (lastFrameReflectionsProjectedTexel
                     lastFrameReflectionsBuffer velocityBuffer vUv)))
       2.

(** [void main()], returning [gl_FragColor].  [TEMPORAL_RESOLVE] is the
    preprocessor symbol tested on line 44. *)
Definition main (TEMPORAL_RESOLVE : bool)
    (inputBuffer lastFrameReflectionsBuffer velocityBuffer : sampler2D)
    (samples : R) (vUv : vec2) : vec4 :=
  let inputTexel := texture2D inputBuffer vUv in
  let lastFrameReflectionsTexel := texture2D lastFrameReflectionsBuffer vUv in
  if TEMPORAL_RESOLVE then
    let lastRgb := history lastFrameReflectionsBuffer velocityBuffer vUv in
    let mixVal := mixVal samples in
    let newColor := mix3 lastRgb (rgb inputTexel) mixVal in
    let newColor :=
      if Rlt_dec (length lastRgb) 0.001
      then mix3 lastRgb (add3 lastRgb (rgb inputTexel)) 0.25
      else newColor in
    let blurMix := mix (a lastFrameReflectionsTexel) (a inputTexel + 0.5) mixVal in
    Vec4 newColor blurMix
  else
    Vec4 (rgb inputTexel) (a inputTexel).

(** The blend of the specification: the history sample taken at
    [vUv - velUv] alone, mixed with the current sample. *)
Definition spec_blend
    (inputBuffer lastFrameReflectionsBuffer velocityBuffer : sampler2D)
    (samples : R) (vUv : vec2) : vec3 :=
  mix3 (rgb (lastFrameReflectionsProjectedTexel
               lastFrameReflectionsBuffer velocityBuffer vUv))
       (rgb (texture2D inputBuffer vUv))
       (1 / (samples * EULER)).

(** The disocclusion rule of the specification, on the reprojected sample. *)
Definition spec_disocclusion
    (inputBuffer lastFrameReflectionsBuffer velocityBuffer : sampler2D)
    (vUv : vec2) : vec3 :=
  let previousColor :=
    rgb (lastFrameReflectionsProjectedTexel
           lastFrameReflectionsBuffer velocityBuffer vUv) in
  mix3 previousColor (add3 previousColor (rgb (texture2D inputBuffer vUv))) 0.25.

(** The edge scene: the last frame is red left of the origin and black right of
    it, nothing is reflected in the current frame, and every pixel moved one
    unit to the left since the last frame. *)
Definition black : vec4 := Vec4 (Vec3 0 0 0) 0.
Definition red : vec4 := Vec4 (Vec3 1 0 0) 0.
Definition edge_history : sampler2D :=
  fun uv => if Rle_dec (vx uv) 0 then red else black.
Definition no_reflection : sampler2D := fun _ => black.
Definition leftwards : sampler2D := fun _ => Vec4 (Vec3 (-1) 0 0) 0.
Definition origin : vec2 := Vec2 0 0.

End ComposeReflectionsPass.

(* ===================================================================== *)
(** ** JavaScript values and results                                     *)
(* ===================================================================== *)

Module JS.

(** The values a configuration entry can hold.  A finite number is an exact
    rational; [VRef] is a reference to an object (a texture, a vector). *)
Inductive value :=
| VUndefined
| VNull
| VBool (b : bool)
| VNaN
| VNum (q : Qc)
| VStr (s : string)
| VRef (p : positive).

#[global] Instance value_eq_dec : EqDecision value.
Proof. solve_decision. Defined.

Definition num (q : Q) : value := VNum (Q2Qc q).

(** [x === y]: identity on everything but [NaN], which equals nothing. *)
Definition strict_eq (x y : value) : bool :=
  match x, y with
  | VNaN, _ | _, VNaN => false
  | _, _ => bool_decide (x = y)
  end.

(** The condition of [if (value)]. *)
Definition truthy (v : value) : bool :=
  match v with
  | VUndefined | VNull | VNaN => false
  | VBool b => b
  | VNum q => negb (bool_decide (q = Q2Qc 0))
  | VStr s => negb (bool_decide (s = ""))
  | VRef _ => true
  end.

(** A method either returns or throws. *)
Inductive error := TypeError.

Inductive result (A : Type) :=
| Ok (x : A)
| Throw (e : error).
Arguments Ok {A} x.
Arguments Throw {A} e.

Definition bind {A B} (m : result A) (k : A -> result B) : result B :=
  match m with Ok x => k x | Throw e => Throw e end.

(** What the host provides and the effect only calls: the built-ins
    [parseInt] and [Math.round], the [*] operator, and
    [window.devicePixelRatio]. *)
Class Host := {
  parseInt : value -> value;
  Math_round : value -> value;
  times : value -> value -> value;
  devicePixelRatio : value
}.

(** [String.prototype.replace] with a string pattern: the first occurrence
    of [pat] is replaced, the rest of the text is kept. *)
Fixpoint replace (pat rep s : string) : string :=
  if String.prefix pat s
  then rep ++ String.substring (String.length pat) (String.length s - String.length pat) s
  else match s with
       | EmptyString => EmptyString
       | String c s' => String c (replace pat rep s')
       end.

End JS.

(* ===================================================================== *)
(** ** The effect                                                         *)
(* ===================================================================== *)

Module SSREffect.
Import JS.

(** A [ShaderMaterial] as far as the effect touches it.  A uniform is
    stored by name with its [.value]. *)
Record ShaderMaterial := {
  mat_uniforms : gmap string value;
  mat_defines : gmap string value;
  mat_needsUpdate : bool;
  fragmentShader : string
}.

(** The two passes.  Their classes are imported by the effect; the model
    keeps the members the effect reads or writes and, for [setSize], the
    list of the calls the pass received (latest first). *)
Record Pass := {
  fullscreenMaterial : ShaderMaterial;
  pass_velocityResolutionScale : value;
  resizes : list (value * value)
}.

Definition Pass_setSize (width height : value) (p : Pass) : Pass :=
  {| fullscreenMaterial := fullscreenMaterial p;
     pass_velocityResolutionScale := pass_velocityResolutionScale p;
     resizes := (width, height) :: resizes p |}.

Definition with_material (m : ShaderMaterial) (p : Pass) : Pass :=
  {| fullscreenMaterial := m;
     pass_velocityResolutionScale := pass_velocityResolutionScale p;
     resizes := resizes p |}.

Definition with_mat_uniforms (u : gmap string value) (m : ShaderMaterial) : ShaderMaterial :=
  {| mat_uniforms := u; mat_defines := mat_defines m;
     mat_needsUpdate := mat_needsUpdate m; fragmentShader := fragmentShader m |}.

Definition with_mat_defines (d : gmap string value) (m : ShaderMaterial) : ShaderMaterial :=
  {| mat_uniforms := mat_uniforms m; mat_defines := d;
     mat_needsUpdate := mat_needsUpdate m; fragmentShader := fragmentShader m |}.

Definition with_mat_needsUpdate (f : bool) (m : ShaderMaterial) : ShaderMaterial :=
  {| mat_uniforms := mat_uniforms m; mat_defines := mat_defines m;
     mat_needsUpdate := f; fragmentShader := fragmentShader m |}.

Definition with_fragmentShader (src : string) (m : ShaderMaterial) : ShaderMaterial :=
  {| mat_uniforms := mat_uniforms m; mat_defines := mat_defines m;
     mat_needsUpdate := mat_needsUpdate m; fragmentShader := src |}.

(** [this.lastSize] *)
Record Size := {
  width : value;
  height : value;
  resolutionScale : value;
  velocityResolutionScale : value
}.

(** An [SSREffect] instance together with the variables its accessors
    close over: [options], [needsUpdate] and
    [reflectionPassFullscreenMaterialUniformsKeys] are the locals of
    [makeOptionsReactive], and [reactive] is the set of keys for which
    [Object.defineProperty] has run. *)
Record t := {
  options : gmap string value;
  needsUpdate : bool;
  reflectionPassFullscreenMaterialUniformsKeys : gset string;
  reactive : gset string;
  samples : value;
  lastSize : Size;
  uniforms : gmap string value;
  temporalResolvePass : Pass;
  reflectionsPass : Pass;
  usingBoxProjectedEnvMap : bool
}.

Definition with_options (o : gmap string value) (s : t) : t :=
  {| options := o; needsUpdate := needsUpdate s;
     reflectionPassFullscreenMaterialUniformsKeys := reflectionPassFullscreenMaterialUniformsKeys s;
     reactive := reactive s; samples := samples s; lastSize := lastSize s;
     uniforms := uniforms s; temporalResolvePass := temporalResolvePass s;
     reflectionsPass := reflectionsPass s;
     usingBoxProjectedEnvMap := usingBoxProjectedEnvMap s |}.

Definition with_needsUpdate (f : bool) (s : t) : t :=
  {| options := options s; needsUpdate := f;
     reflectionPassFullscreenMaterialUniformsKeys := reflectionPassFullscreenMaterialUniformsKeys s;
     reactive := reactive s; samples := samples s; lastSize := lastSize s;
     uniforms := uniforms s; temporalResolvePass := temporalResolvePass s;
     reflectionsPass := reflectionsPass s;
     usingBoxProjectedEnvMap := usingBoxProjectedEnvMap s |}.

Definition with_uniformsKeys (k : gset string) (s : t) : t :=
  {| options := options s; needsUpdate := needsUpdate s;
     reflectionPassFullscreenMaterialUniformsKeys := k;
     reactive := reactive s; samples := samples s; lastSize := lastSize s;
     uniforms := uniforms s; temporalResolvePass := temporalResolvePass s;
     reflectionsPass := reflectionsPass s;
     usingBoxProjectedEnvMap := usingBoxProjectedEnvMap s |}.

Definition with_reactive (k : gset string) (s : t) : t :=
  {| options := options s; needsUpdate := needsUpdate s;
     reflectionPassFullscreenMaterialUniformsKeys := reflectionPassFullscreenMaterialUniformsKeys s;
     reactive := k; samples := samples s; lastSize := lastSize s;
     uniforms := uniforms s; temporalResolvePass := temporalResolvePass s;
     reflectionsPass := reflectionsPass s;
     usingBoxProjectedEnvMap := usingBoxProjectedEnvMap s |}.

Definition with_samples (v : value) (s : t) : t :=
  {| options := options s; needsUpdate := needsUpdate s;
     reflectionPassFullscreenMaterialUniformsKeys := reflectionPassFullscreenMaterialUniformsKeys s;
     reactive := reactive s; samples := v; lastSize := lastSize s;
     uniforms := uniforms s; temporalResolvePass := temporalResolvePass s;
     reflectionsPass := reflectionsPass s;
     usingBoxProjectedEnvMap := usingBoxProjectedEnvMap s |}.

Definition with_lastSize (z : Size) (s : t) : t :=
  {| options := options s; needsUpdate := needsUpdate s;
     reflectionPassFullscreenMaterialUniformsKeys := reflectionPassFullscreenMaterialUniformsKeys s;
     reactive := reactive s; samples := samples s; lastSize := z;
     uniforms := uniforms s; temporalResolvePass := temporalResolvePass s;
     reflectionsPass := reflectionsPass s;
     usingBoxProjectedEnvMap := usingBoxProjectedEnvMap s |}.

Definition with_uniforms (u : gmap string value) (s : t) : t :=
  {| options := options s; needsUpdate := needsUpdate s;
     reflectionPassFullscreenMaterialUniformsKeys := reflectionPassFullscreenMaterialUniformsKeys s;
     reactive := reactive s; samples := samples s; lastSize := lastSize s;
     uniforms := u; temporalResolvePass := temporalResolvePass s;
     reflectionsPass := reflectionsPass s;
     usingBoxProjectedEnvMap := usingBoxProjectedEnvMap s |}.

Definition with_temporalResolvePass (p : Pass) (s : t) : t :=
  {| options := options s; needsUpdate := needsUpdate s;
     reflectionPassFullscreenMaterialUniformsKeys := reflectionPassFullscreenMaterialUniformsKeys s;
     reactive := reactive s; samples := samples s; lastSize := lastSize s;
     uniforms := uniforms s; temporalResolvePass := p;
     reflectionsPass := reflectionsPass s;
     usingBoxProjectedEnvMap := usingBoxProjectedEnvMap s |}.

Definition with_reflectionsPass (p : Pass) (s : t) : t :=
  {| options := options s; needsUpdate := needsUpdate s;
     reflectionPassFullscreenMaterialUniformsKeys := reflectionPassFullscreenMaterialUniformsKeys s;
     reactive := reactive s; samples := samples s; lastSize := lastSize s;
     uniforms := uniforms s; temporalResolvePass := temporalResolvePass s;
     reflectionsPass := p;
     usingBoxProjectedEnvMap := usingBoxProjectedEnvMap s |}.

Definition with_usingBoxProjectedEnvMap (f : bool) (s : t) : t :=
  {| options := options s; needsUpdate := needsUpdate s;
     reflectionPassFullscreenMaterialUniformsKeys := reflectionPassFullscreenMaterialUniformsKeys s;
     reactive := reactive s; samples := samples s; lastSize := lastSize s;
     uniforms := uniforms s; temporalResolvePass := temporalResolvePass s;
     reflectionsPass := reflectionsPass s;
     usingBoxProjectedEnvMap := f |}.

(** [options[key]] and [options.width]: a missing entry reads [undefined]. *)
Definition opt (key : string) (s : t) : value :=
  default VUndefined (options s !! key).

(** [this.resolutionScale] and [this.velocityResolutionScale]: the accessor
    returns [options[key]] once it is defined; before that the instance has
    no such property. *)
Definition this_get (key : string) (s : t) : value :=
  if bool_decide (key ∈ reactive s) then opt key s else VUndefined.

(** Line 18. *)
Definition noResetSamplesProperties : list string :=
  ["blurMix"; "blurSharpness"; "blurKernelSize"].

(** Lines 190-209. *)
Definition setSize (w h : value) (force : bool) (s : t) : t :=
  if negb force
     && strict_eq w (width (lastSize s))
     && strict_eq h (height (lastSize s))
     && strict_eq (this_get "resolutionScale" s) (resolutionScale (lastSize s))
     && strict_eq (this_get "velocityResolutionScale" s)
                  (velocityResolutionScale (lastSize s))
  then s
  else
    let s := with_temporalResolvePass (Pass_setSize w h (temporalResolvePass s)) s in
    let s := with_reflectionsPass (Pass_setSize w h (reflectionsPass s)) s in
    with_lastSize {| width := w; height := h;
                     resolutionScale := this_get "resolutionScale" s;
                     velocityResolutionScale := this_get "velocityResolutionScale" s |} s.

(** [uniforms.get(name).value = v] on the effect's own uniform map, and
    [material.uniforms.name.value = v] on a pass: both throw when there is no
    such uniform. *)
Definition set_uniform (name : string) (v : value) (s : t) : result t :=
  match uniforms s !! name with
  | Some _ => Ok (with_uniforms (<[name := v]> (uniforms s)) s)
  | None => Throw TypeError
  end.

Definition write_uniform (name : string) (v : value) (m : ShaderMaterial)
    : result ShaderMaterial :=
  match mat_uniforms m !! name with
  | Some _ => Ok (with_mat_uniforms (<[name := v]> (mat_uniforms m)) m)
  | None => Throw TypeError
  end.

Definition on_temporalResolveMaterial (f : ShaderMaterial -> result ShaderMaterial)
    (s : t) : result t :=
  bind (f (fullscreenMaterial (temporalResolvePass s)))
       (fun m => Ok (with_temporalResolvePass (with_material m (temporalResolvePass s)) s)).

Definition on_reflectionsMaterial (f : ShaderMaterial -> result ShaderMaterial)
    (s : t) : result t :=
  bind (f (fullscreenMaterial (reflectionsPass s)))
       (fun m => Ok (with_reflectionsPass (with_material m (reflectionsPass s)) s)).

(** [material.defines.name = v; material.needsUpdate = needsUpdate] *)
Definition define (name : string) (v : value) (flag : bool) (m : ShaderMaterial)
    : result ShaderMaterial :=
  Ok (with_mat_needsUpdate flag (with_mat_defines (<[name := v]> (mat_defines m)) m)).

(** [delete material.defines.name; material.needsUpdate = needsUpdate] *)
Definition undefine (name : string) (flag : bool) (m : ShaderMaterial)
    : result ShaderMaterial :=
  Ok (with_mat_needsUpdate flag (with_mat_defines (delete name (mat_defines m)) m)).

(** The labels of the [switch (key)] on lines 103-179. *)
Inductive case :=
| case_resolutionScale | case_velocityResolutionScale | case_width | case_height
| case_blurMix | case_blurSharpness | case_blurKernelSize
| case_MAX_STEPS | case_NUM_BINARY_SEARCH_STEPS | case_ALLOW_MISSED_RAYS
| case_CLAMP_RADIUS
| case_temporalResolveMix | case_temporalResolveCorrection | case_colorExponent
| case_default.

Definition switch (key : string) : case :=
  if String.eqb key "resolutionScale" then case_resolutionScale
  else if String.eqb key "velocityResolutionScale" then case_velocityResolutionScale
  else if String.eqb key "width" then case_width
  else if String.eqb key "height" then case_height
  else if String.eqb key "blurMix" then case_blurMix
  else if String.eqb key "blurSharpness" then case_blurSharpness
  else if String.eqb key "blurKernelSize" then case_blurKernelSize
  else if String.eqb key "MAX_STEPS" then case_MAX_STEPS
  else if String.eqb key "NUM_BINARY_SEARCH_STEPS" then case_NUM_BINARY_SEARCH_STEPS
  else if String.eqb key "ALLOW_MISSED_RAYS" then case_ALLOW_MISSED_RAYS
  else if String.eqb key "CLAMP_RADIUS" then case_CLAMP_RADIUS
  else if String.eqb key "temporalResolveMix" then case_temporalResolveMix
  else if String.eqb key "temporalResolveCorrection" then case_temporalResolveCorrection
  else if String.eqb key "colorExponent" then case_colorExponent
  else case_default.

Section Methods.
Context {host : Host}.

(** Lines 103-179: the per-key part of the setter, run on the state the
    preamble leaves. *)
Definition dispatch (key : string) (value : value) (s : t) : result t :=
  match switch key with
  | case_resolutionScale =>
      Ok (setSize (opt "width" s) (opt "height" s) false s)
  | case_velocityResolutionScale =>
      let p := temporalResolvePass s in
      let s := with_temporalResolvePass
                 {| fullscreenMaterial := fullscreenMaterial p;
                    pass_velocityResolutionScale := value;
                    resizes := resizes p |} s in
      Ok (setSize (opt "width" s) (opt "height" s) true s)
  | case_width =>
      if strict_eq value VUndefined then Ok s
      else Ok (setSize (times value devicePixelRatio) (opt "height" s) false s)
  | case_height =>
      if strict_eq value VUndefined then Ok s
      else Ok (setSize (opt "width" s) (times value devicePixelRatio) false s)
  | case_blurMix => set_uniform "blurMix" value s
  | case_blurSharpness => set_uniform "blurSharpness" value s
  | case_blurKernelSize => set_uniform "blurKernelSize" value s
  | case_MAX_STEPS =>
      on_reflectionsMaterial (define "MAX_STEPS" (parseInt value) (needsUpdate s)) s
  | case_NUM_BINARY_SEARCH_STEPS =>
      on_reflectionsMaterial
        (define "NUM_BINARY_SEARCH_STEPS" (parseInt value) (needsUpdate s)) s
  | case_ALLOW_MISSED_RAYS =>
      if truthy value
      then on_reflectionsMaterial (define "ALLOW_MISSED_RAYS" (VStr "") (needsUpdate s)) s
      else on_reflectionsMaterial (undefine "ALLOW_MISSED_RAYS" (needsUpdate s)) s
  | case_CLAMP_RADIUS =>
      on_temporalResolveMaterial
        (define "CLAMP_RADIUS" (Math_round value) (needsUpdate s)) s
  | case_temporalResolveMix =>
      on_temporalResolveMaterial (write_uniform "temporalResolveMix" value) s
  | case_temporalResolveCorrection =>
      on_temporalResolveMaterial (write_uniform "temporalResolveCorrection" value) s
  | case_colorExponent =>
      on_temporalResolveMaterial (write_uniform "colorExponent" value) s
  | case_default =>
      if bool_decide (key ∈ reflectionPassFullscreenMaterialUniformsKeys s)
      then on_reflectionsMaterial (write_uniform key value) s
      else Ok s
  end.

(** Lines 96-101: store the value and, outside the allow-list, set
    [this.samples] to 0 and force a resize. *)
Definition preamble (key : string) (value : value) (s : t) : t :=
  let s := with_options (<[key := value]> (options s)) s in
  if bool_decide (key ∈ noResetSamplesProperties) then s
  else setSize (opt "width" s) (opt "height" s) true (with_samples (num 0) s).

(** Lines 93-180: [set(value)] of the accessor defined for [key]. *)
Definition setter (key : string) (value : value) (s : t) : result t :=
  if strict_eq (opt key s) value && needsUpdate s then Ok s
  else dispatch key value (preamble key value s).


(** Lines 88-185: the loop over [Object.keys(options)]; each round defines
    the accessor and then assigns [this[key] = options[key]].  The descriptor
    of line 89 names no [configurable], so an accessor it has defined cannot
    be defined again: [Object.defineProperty] throws on a key that has one. *)
Fixpoint defineProperties (keys : list string) (s : t) : result t :=
  match keys with
  | [] => Ok s
  | key :: keys =>
      if bool_decide (key ∈ reactive s) then Throw TypeError
      else
        let s := with_reactive ({[key]} ∪ reactive s) s in
        bind (setter key (opt key s) s) (defineProperties keys)
  end.

(** Lines 81-188.  [opts] lists the entries of the options object in key
    order.  The record holds the locals of one call, those the accessors
    close over: the effect calls the method once, from its constructor, on
    an instance that has no accessor yet. *)
Definition makeOptionsReactive (opts : list (string * value)) (s : t) : result t :=
  let s := with_needsUpdate false (with_options (list_to_map opts) s) in
  let s := with_uniformsKeys
             (dom (mat_uniforms (fullscreenMaterial (reflectionsPass s)))) s in
  bind (defineProperties opts.*1 s) (fun s => Ok (with_needsUpdate true s)).

(** Lines 51-56: [{ ...defaultSSROptions, ...options, ...trOptions }].  An
    object is the list of its entries in key order; spreading overwrites the
    value of a key already there and appends a new key. *)
Definition trOptions : list (string * value) :=
  [("BOX_BLUR", VBool true); ("DILATION", VBool true)].

Fixpoint assign_entry (k : string) (v : value) (o : list (string * value))
    : list (string * value) :=
  match o with
  | [] => [(k, v)]
  | (k', v') :: o' =>
      if String.eqb k k' then (k, v) :: o' else (k', v') :: assign_entry k v o'
  end.

Definition spread (o ext : list (string * value)) : list (string * value) :=
  fold_left (fun o kv => assign_entry kv.1 kv.2 o) ext o.

(** Lines 34-79.  The two passes are taken as the imported constructors
    leave them, [texture] is [temporalResolvePass.renderTarget.texture]. *)
Definition constructor (defaultSSROptions options : list (string * value))
    (trp rp : Pass) (texture : value) : result t :=
  let options := spread (spread (spread [] defaultSSROptions) options) trOptions in
  let o : gmap string value := list_to_map options in
  let s :=
    {| SSREffect.options := o;
       needsUpdate := false;
       reflectionPassFullscreenMaterialUniformsKeys := ∅;
       reactive := ∅;
       samples := VUndefined;
       lastSize := {| width := default VUndefined (o !! "width");
                      height := default VUndefined (o !! "height");
                      resolutionScale := default VUndefined (o !! "resolutionScale");
                      velocityResolutionScale :=
                        default VUndefined (o !! "velocityResolutionScale") |};
       uniforms := <["inputTexture" := VNull]>
                   (<["reflectionsTexture" := texture]>
                   (<["samples" := num 0]>
                   (<["blurMix" := num 0]>
                   (<["blurSharpness" := num 0]>
                   (<["blurKernelSize" := num 0]> ∅)))));
       temporalResolvePass := trp;
       reflectionsPass := rp;
       usingBoxProjectedEnvMap := false |} in
  makeOptionsReactive options (setSize (opt "width" s) (opt "height" s) false s).

End Methods.

(** *** The box-projected environment map *)

(** The helpers imported from [./utils]; they receive the material of the
    reflections pass and mutate it. *)
Class Utils := {
  useBoxProjectedEnvMap : ShaderMaterial -> value -> value -> ShaderMaterial;
  setupEnvMap : ShaderMaterial -> value -> value -> ShaderMaterial
}.

(** Lines 230-232 and line 247: the two rewritings of the fragment shader. *)
Definition patch_worldPos (src : string) : string :=
  replace "varying vec3 vWorldPosition;" "vec3 worldPos;"
    (replace "vec3 worldPos" "worldPos" src).

Definition unpatch_worldPos (src : string) : string :=
  replace "worldPos = " "vec3 worldPos = " src.

(** The objects of [three] that lines 211-235 call into.  The model keeps of
    an object its reference: [copy p v] is the call [o.copy(v)] on the object
    [o] that [p] refers to.  It throws when [o] has no method [copy] or when
    the method throws (that of a [Vector3] reads [v.x], which throws on
    [null]); otherwise it stores into [o], which stays the same object.
    [cubeCamera_position] is [this.cubeCamera.position], and [new_Vector3]
    holds the two vectors that the defaults of line 211 create. *)
Class Objects := {
  copy : positive -> value -> result unit;
  cubeCamera_position : positive;
  new_Vector3 : positive * positive
}.

(** Line 211: a parameter whose argument is left out or [undefined] takes
    its default. *)
Definition or_default (argument default : value) : value :=
  if strict_eq argument VUndefined then default else argument.

Section Fallback.
Context {utils : Utils} {objects : Objects}.

(** [target.copy(v)]: [undefined] and [null] have no properties, and a
    boolean, a number or a string has no method [copy]; all of them throw. *)
Definition call_copy (target v : value) : result unit :=
  match target with
  | VRef p => copy p v
  | _ => Throw TypeError
  end.

(** [material.uniforms.name.value.copy(v)]: it throws when there is no such
    uniform or when the call does; the uniform goes on holding the object it
    held. *)
Definition copy_into_uniform (name : string) (v : value) (m : ShaderMaterial)
    : result ShaderMaterial :=
  match mat_uniforms m !! name with
  | Some target => bind (call_copy target v) (fun _ => Ok m)
  | None => Throw TypeError
  end.

(** Lines 211-242.  [envMap] is the texture the PMREM generator returns for
    the cube camera's render target (lines 212-223, whose calls into [three]
    are taken to return); lines 224-225 set two properties on it, which
    throws in a module unless it is an object. *)
Definition generateBoxProjectedEnvMapFallback
    (envMap position size envMapSize : value) (s : t) : result (t * value) :=
  let position := or_default position (VRef new_Vector3.1) in
  let size := or_default size (VRef new_Vector3.2) in
  let envMapSize := or_default envMapSize (num 512) in
  bind (call_copy (VRef cubeCamera_position) position) (fun _ =>
  match envMap with
  | VRef _ =>
      let reflectionsMaterial := fullscreenMaterial (reflectionsPass s) in
      let reflectionsMaterial := useBoxProjectedEnvMap reflectionsMaterial position size in
      let reflectionsMaterial :=
        with_fragmentShader (patch_worldPos (fragmentShader reflectionsMaterial))
          reflectionsMaterial in
      bind (copy_into_uniform "envMapPosition" position reflectionsMaterial) (fun m =>
      bind (copy_into_uniform "envMapSize" size m) (fun m =>
      let m := setupEnvMap m envMap envMapSize in
      Ok (with_usingBoxProjectedEnvMap true
            (with_reflectionsPass (with_material m (reflectionsPass s)) s),
          envMap)))
  | _ => Throw TypeError
  end).

(** Lines 244-253. *)
Definition deleteeBoxProjectedEnvMapFallback (s : t) : result t :=
  let reflectionsMaterial := fullscreenMaterial (reflectionsPass s) in
  bind (write_uniform "envMap" VNull reflectionsMaterial) (fun m =>
  let m := with_fragmentShader (unpatch_worldPos (fragmentShader m)) m in
  let m := with_mat_defines (delete "BOX_PROJECTED_ENV_MAP" (mat_defines m)) m in
  let m := with_mat_needsUpdate true m in
  Ok (with_usingBoxProjectedEnvMap false
        (with_reflectionsPass (with_material m (reflectionsPass s)) s))).

End Fallback.

(** *** Uniforms the setters rely on *)

(** The setters write some uniforms without testing that they exist: the
    three blur uniforms of the effect (created on lines 41-43), the three
    uniforms of the temporal resolve pass named on lines 163-171, and, for a
    key found in the list taken on line 86, the uniform of that name on the
    reflections pass. *)
Definition temporalResolveUniforms : list string :=
  ["temporalResolveMix"; "temporalResolveCorrection"; "colorExponent"].

Definition uniforms_present (s : t) : Prop :=
  (forall name, name ∈ noResetSamplesProperties -> is_Some (uniforms s !! name))
  /\ (forall name, name ∈ temporalResolveUniforms ->
        is_Some (mat_uniforms (fullscreenMaterial (temporalResolvePass s)) !! name))
  /\ (forall name, name ∈ reflectionPassFullscreenMaterialUniformsKeys s ->
        is_Some (mat_uniforms (fullscreenMaterial (reflectionsPass s)) !! name)).

(** Two states of one effect have the same shape when the closure variables
    other than [options] agree and the same uniforms exist. *)
Definition same_shape (s s' : t) : Prop :=
  needsUpdate s' = needsUpdate s
  /\ reflectionPassFullscreenMaterialUniformsKeys s'
     = reflectionPassFullscreenMaterialUniformsKeys s
  /\ dom (uniforms s') = dom (uniforms s)
  /\ dom (mat_uniforms (fullscreenMaterial (temporalResolvePass s')))
     = dom (mat_uniforms (fullscreenMaterial (temporalResolvePass s)))
  /\ dom (mat_uniforms (fullscreenMaterial (reflectionsPass s')))
     = dom (mat_uniforms (fullscreenMaterial (reflectionsPass s))).

(** The condition of the early return on line 94. *)
Definition unchanged (key : string) (value : value) (s : t) : bool :=
  strict_eq (opt key s) value && needsUpdate s.

(** *** What an assignment does, as the specification words it *)

Section Outcomes.
Context {host : Host}.

(** What lines 99-100 leave behind: the assignment returns, the effect's own
    [samples] property is 0 (line 99), and both passes have received a resize
    to the configured width and height since the state before (line 100). *)
Definition resets_and_resizes (key : string) (value : value) (s : t) : Prop :=
  exists s', setter key value s = Ok s'
    /\ samples s' = num 0
    /\ (exists l, resizes (temporalResolvePass s')
                  = l ++ (opt "width" s', opt "height" s') :: resizes (temporalResolvePass s))
    /\ (exists l, resizes (reflectionsPass s')
                  = l ++ (opt "width" s', opt "height" s') :: resizes (reflectionsPass s)).

(** "No resize is propagated": the assignment returns and neither pass has
    received a call of [setSize]. *)
Definition no_resize (key : string) (value : value) (s : t) : Prop :=
  exists s', setter key value s = Ok s'
    /\ resizes (temporalResolvePass s') = resizes (temporalResolvePass s)
    /\ resizes (reflectionsPass s') = resizes (reflectionsPass s).

(** "Silently ignored, no effect on the effect's state": no error, no
    uniform or define written, the effect's [samples] as before, no resize. *)
Definition ignored (key : string) (value : value) (s : t) : Prop :=
  exists s', setter key value s = Ok s'
    /\ uniforms s' = uniforms s
    /\ fullscreenMaterial (temporalResolvePass s') = fullscreenMaterial (temporalResolvePass s)
    /\ fullscreenMaterial (reflectionsPass s') = fullscreenMaterial (reflectionsPass s)
    /\ samples s' = samples s
    /\ resizes (temporalResolvePass s') = resizes (temporalResolvePass s)
    /\ resizes (reflectionsPass s') = resizes (reflectionsPass s).

End Outcomes.

(** A fragment shader with the two lines the rewritings look for. *)
Definition a_fragmentShader : string :=
  "varying vec3 vWorldPosition; void main() { vec3 worldPos = p; }".

(** [pat] occurs in [src]. *)
Definition occurs (pat src : string) : Prop :=
  exists pre post, src = (pre ++ pat ++ post)%string.

(** The keys that the switch turns into defines of a material (lines
    136-160). *)
Definition defineKeys : list string :=
  ["MAX_STEPS"; "NUM_BINARY_SEARCH_STEPS"; "ALLOW_MISSED_RAYS"; "CLAMP_RADIUS"].

(** *** A concrete effect *)

(** A host whose operations are those of JavaScript on finite numbers (the
    only operands they meet below) on a display with pixel ratio 1. *)
Definition truncate (q : Qc) : Qc :=
  Q2Qc (inject_Z (if Qlt_le_dec q 0 then Qceiling q else Qfloor q)).

#[export] Instance browser : Host := {|
  parseInt v := match v with VNum q => VNum (truncate q) | _ => VNaN end;
  Math_round v :=
    match v with
    | VNum q => VNum (Q2Qc (inject_Z (Qfloor (q + Q2Qc (1 # 2)))))
    | _ => VNaN
    end;
  times x y := match x, y with VNum p, VNum q => VNum (p * q) | _, _ => VNaN end;
  devicePixelRatio := num 1
|}.

(** The temporal resolve pass with the uniforms the effect writes, the
    reflections pass with the [envMap] uniform. *)
Definition a_temporalResolvePass : Pass :=
  {| fullscreenMaterial :=
       {| mat_uniforms := <["inputTexture" := VRef 2]>
                          (<["temporalResolveMix" := num 0]>
                          (<["temporalResolveCorrection" := num 0]>
                          (<["colorExponent" := num 1]> ∅)));
          mat_defines := ∅; mat_needsUpdate := false; fragmentShader := "" |};
     pass_velocityResolutionScale := num 1;
     resizes := [] |}.

Definition a_reflectionsPass : Pass :=
  {| fullscreenMaterial :=
       {| mat_uniforms := <["envMap" := VNull]> ∅;
          mat_defines := ∅; mat_needsUpdate := false; fragmentShader := "" |};
     pass_velocityResolutionScale := VUndefined;
     resizes := [] |}.

Definition some_options : list (string * value) :=
  [("width", num 800); ("height", num 600); ("resolutionScale", num 1);
   ("velocityResolutionScale", num 1); ("blurMix", num 0.5);
   ("MAX_STEPS", num 20)].

(** [new SSREffect(scene, camera, some_options)] *)
Definition an_effect : result t :=
  constructor some_options some_options a_temporalResolvePass a_reflectionsPass (VRef 1).

(** The effect returned by the constructor (the configuration of the
    placeholder is never read: [an_effect] does not throw). *)
Definition constructed : t :=
  match an_effect with
  | Ok s => s
  | Throw _ =>
      {| options := ∅; needsUpdate := true;
         reflectionPassFullscreenMaterialUniformsKeys := ∅; reactive := ∅;
         samples := VUndefined;
         lastSize := {| width := VUndefined; height := VUndefined;
                        resolutionScale := VUndefined;
                        velocityResolutionScale := VUndefined |};
         uniforms := ∅;
         temporalResolvePass := a_temporalResolvePass;
         reflectionsPass := a_reflectionsPass;
         usingBoxProjectedEnvMap := false |}
  end.

(** The options object that this constructor call hands to
    [makeOptionsReactive] on line 78, and the instance as line 76 leaves it:
    both passes resized once, no accessor defined yet. *)
Definition merged_options : list (string * value) :=
  spread (spread (spread [] some_options) some_options) trOptions.

Definition before_makeOptionsReactive : t :=
  let o : gmap string value := list_to_map merged_options in
  let s :=
    {| options := o;
       needsUpdate := false;
       reflectionPassFullscreenMaterialUniformsKeys := ∅;
       reactive := ∅;
       samples := VUndefined;
       lastSize := {| width := default VUndefined (o !! "width");
                      height := default VUndefined (o !! "height");
                      resolutionScale := default VUndefined (o !! "resolutionScale");
                      velocityResolutionScale :=
                        default VUndefined (o !! "velocityResolutionScale") |};
       uniforms := <["inputTexture" := VNull]>
                   (<["reflectionsTexture" := VRef 1]>
                   (<["samples" := num 0]>
                   (<["blurMix" := num 0]>
                   (<["blurSharpness" := num 0]>
                   (<["blurKernelSize" := num 0]> ∅)))));
       temporalResolvePass := a_temporalResolvePass;
       reflectionsPass := a_reflectionsPass;
       usingBoxProjectedEnvMap := false |} in
  setSize (opt "width" s) (opt "height" s) false s.

(** The same host on a display with pixel ratio 2 (not an instance: it is
    named where it is used). *)
Definition retina : Host := {|
  parseInt := @parseInt browser;
  Math_round := @Math_round browser;
  times := @times browser;
  devicePixelRatio := num 2
|}.

(** The concrete effect after [effect.width = 1000] on that display, and
    after [effect.MAX_STEPS = 5] following it (the states are those the
    setters return: neither throws). *)
Definition widened : t :=
  match @setter retina "width" (num 1000) constructed with
  | Ok s => s
  | Throw _ => constructed
  end.

Definition restepped : t :=
  match @setter retina "MAX_STEPS" (num 5) widened with
  | Ok s => s
  | Throw _ => widened
  end.

(** The concrete effect with [a_fragmentShader] on its reflections pass. *)
Definition shaded : t :=
  with_reflectionsPass
    (with_material
       (with_fragmentShader a_fragmentShader (fullscreenMaterial (reflectionsPass constructed)))
       (reflectionsPass constructed))
    constructed.

End SSREffect.

(* ===================================================================== *)
(** ** Colours in range                                                   *)
(* ===================================================================== *)

Module Colour.
Import ComposeReflectionsPass.

Local Open Scope R_scope.

(** A colour whose three components lie between 0 and 1. *)
Definition unit3 (v : vec3) : Prop :=
  0 <= r v <= 1 /\ 0 <= g v <= 1 /\ 0 <= b v <= 1.

(** A frame that is red everywhere. *)
Definition all_red : sampler2D := fun _ => red.

End Colour.

(* ===================================================================== *)
(** ** The per-frame update                                               *)
(* ===================================================================== *)

Module SSRUpdate.
Import JS SSREffect.

(** A material of the scene as [update] inspects it: its own [envMap]
    member, and the object that [renderer.properties.get] returns for it. *)
Record MeshMaterial := {
  envMap : value;
  properties : gmap string value
}.

(** An object of the scene graph: [c.material], if it has one, and its
    children.  [traverse] lists the materials in the order in which
    [Object3D.traverse] visits the objects: the object itself, then each
    child with its descendants. *)
#[local] Unset Elimination Schemes.
Inductive Object3D :=
| Object (material : option MeshMaterial) (children : list Object3D).
#[local] Set Elimination Schemes.

Fixpoint traverse (c : Object3D) : list (option MeshMaterial) :=
  match c with
  | Object material children => material :: concat (map traverse children)
  end.

(** [this._scene]: the root object, [scene.environment], and
    [scene.environment.image.height] when the environment has an image. *)
Record Scene := {
  root : Object3D;
  environment : value;
  environment_image_height : option value
}.

(** Which object references are instances of [Texture]. *)
Class Three := { Texture : positive -> bool }.

Definition instanceof_Texture {three : Three} (v : value) : bool :=
  match v with VRef p => Texture p | _ => false end.

(** Lines 269-275: the callback given to [traverse], as a function from the
    value of the local [envMap] before the visit to its value after. *)
Definition visit {three : Three} (envMap : value) (material : option MeshMaterial)
    : value :=
  match material with
  | Some m =>
      if negb (truthy envMap) && negb (truthy (SSRUpdate.envMap m))
      then match properties m !! "envMap" with
           | Some v => if instanceof_Texture v then v else envMap
           | None => envMap
           end
      else envMap
  | None => envMap
  end.

(** The effect during a frame: the instance, [temporalResolvePass.samples],
    and the [render] calls made on the two passes (latest first).  What a
    [render] does is in the classes of the passes and is not modelled. *)
Inductive render_call := reflectionsPass_render | temporalResolvePass_render.

Record Frame := {
  effect : t;
  temporalResolvePass_samples : value;
  rendered : list render_call
}.

Section Update.
Context {utils : Utils} {three : Three}.

(** Lines 263-281. *)
Definition bindEnvironment (scene : Scene) (s : t) : result t :=
  if negb (usingBoxProjectedEnvMap s) && truthy (environment scene) then
    let reflectionsMaterial := fullscreenMaterial (reflectionsPass s) in
    let envMap := fold_left visit (traverse (root scene)) VNull in
    if truthy envMap then
      match environment_image_height scene with
      | Some envMapCubeUVHeight =>
          Ok (with_reflectionsPass
                (with_material (setupEnvMap reflectionsMaterial envMap envMapCubeUVHeight)
                   (reflectionsPass s)) s)
      | None => Throw TypeError
      end
    else Ok s
  else Ok s.

(** Lines 262-291. *)
Definition update (scene : Scene) (f : Frame) : result Frame :=
  bind (bindEnvironment scene (effect f)) (fun s =>
  bind (set_uniform "samples" (temporalResolvePass_samples f) s) (fun s =>
  Ok {| effect := s;
        temporalResolvePass_samples := temporalResolvePass_samples f;
        rendered := temporalResolvePass_render :: reflectionsPass_render :: rendered f |})).

End Update.

(** A material that [visit] accepts: it has no [envMap] of its own and the
    renderer holds a [Texture] for it. *)
Definition eligible {three : Three} (material : option MeshMaterial) (v : value) : Prop :=
  exists m, material = Some m
    /\ truthy (envMap m) = false
    /\ properties m !! "envMap" = Some v
    /\ instanceof_Texture v = true.

Definition ineligible {three : Three} (material : option MeshMaterial) : Prop :=
  forall v, ~ eligible material v.

(** *** A concrete scene *)

(** References 7 and 8 are textures.  The scene holds a mesh with an
    environment map of its own, then two meshes for which the renderer keeps
    textures 7 and 8. *)
#[export] Instance two_textures : Three :=
  {| Texture p := bool_decide (p = 7%positive) || bool_decide (p = 8%positive) |}.

#[export] Instance inert_utils : Utils := {|
  useBoxProjectedEnvMap m _ _ := m;
  setupEnvMap m envMap _ :=
    with_mat_uniforms (<["envMap" := envMap]> (mat_uniforms m)) m
|}.

Definition a_scene : Scene :=
  {| root :=
       Object None
         [Object (Some {| envMap := VRef 5; properties := <["envMap" := VRef 7]> ∅ |}) [];
          Object (Some {| envMap := VUndefined; properties := ∅ |})
            [Object (Some {| envMap := VNull; properties := <["envMap" := VRef 7]> ∅ |}) []];
          Object (Some {| envMap := VUndefined; properties := <["envMap" := VRef 8]> ∅ |}) []];
     environment := VRef 9;
     environment_image_height := Some (num 256) |}.

Definition a_frame : Frame :=
  {| effect := constructed; temporalResolvePass_samples := num 3; rendered := [] |}.

End SSRUpdate.

(* ===================================================================== *)
(** ** Partial sums of the series of [exp (-1)]                           *)
(* ===================================================================== *)

(** Used to place the shader's constant [EULER] next to Euler's number:
    [inv_fact k] is [1/k!] and [alt_sum n] the sum of [(-1)^k / k!] for
    [k <= n]. *)
Module ExpSeries.

Local Open Scope R_scope.

Fixpoint inv_fact (k : nat) : R :=
  match k with
  | O => 1
  | S k' => inv_fact k' / INR (S k')
  end.

Fixpoint alt_sum (n : nat) : R :=
  match n with
  | O => inv_fact 0
  | S n' => alt_sum n' + (-1) ^ (S n') * inv_fact (S n')
  end.

End ExpSeries.

(* ===================================================================== *)
(** ** Properties of the compose shader                                   *)
(* ===================================================================== *)

Module ComposeFacts.
Import ComposeReflectionsPass ExpSeries.

Local Open Scope R_scope.

Lemma inv_fact_eq (k : nat) : / INR (fact k) = inv_fact k.
Proof.
  induction k as [| k IH].
  - simpl. lra.
  - change (fact (S k)) with (S k * fact k)%nat.
    rewrite mult_INR, Rinv_mult. simpl inv_fact. rewrite <- IH.
    unfold Rdiv. apply Rmult_comm.
Qed.

Lemma alt_sum_eq (n : nat) :
  sum_f_R0 (tg_alt (fun i => / INR (fact i))) n = alt_sum n.
Proof.
  induction n as [| n IH].
  - simpl. unfold tg_alt. simpl. rewrite Rinv_1. lra.
  - rewrite tech5, IH. unfold tg_alt. rewrite inv_fact_eq. reflexivity.
Qed.

(** The alternating series of [exp (-1)] encloses its limit. *)
Lemma exp_m1_between (N : nat) :
  alt_sum (S (2 * N)) <= exp (-1) <= alt_sum (2 * N).
Proof.
  rewrite <- !alt_sum_eq.
  unfold exp. destruct (exist_exp (-1)) as [x Hx]. simpl.
  apply alternated_series_ineq.
  - intros n. apply Rinv_le_contravar; [apply INR_fact_lt_0 |].
    apply le_INR, fact_le. auto.
  - intros eps Heps. destruct (cv_speed_pow_fact 1 eps Heps) as [M HM].
    exists M. intros n Hn. specialize (HM n Hn).
    rewrite pow1 in HM. unfold Rdiv in HM. rewrite Rmult_1_l in HM. exact HM.
  - intros eps Heps. destruct (Hx eps Heps) as [M HM].
    exists M. intros n Hn. specialize (HM n Hn).
    erewrite sum_eq; [exact HM |]. intros i _. unfold tg_alt. apply Rmult_comm.
Qed.

(** The constant of line 30 is Euler's number cut after fifteen decimals. *)
Lemma EULER_close : 0 < exp 1 - EULER < 1 / 10 ^ 15.
Proof.
  pose proof (exp_m1_between 10) as [Hl Hu].
  assert (He : exp 1 * exp (-1) = 1).
  { rewrite <- exp_plus. replace (1 + -1) with 0 by lra. apply exp_0. }
  pose proof (exp_pos 1) as Hp. pose proof (exp_pos (-1)) as Hm.
  cbn [alt_sum inv_fact Nat.mul Nat.add INR pow] in Hl, Hu.
  unfold EULER.
  split.
  - apply Rmult_lt_reg_r with (exp (-1)); [assumption |].
    rewrite Rmult_0_l, Rmult_minus_distr_r, He. nra.
  - apply Rmult_lt_reg_r with (exp (-1)); [assumption |].
    rewrite Rmult_minus_distr_r, He. nra.
Qed.

Lemma EULER_pos : 0 < EULER.
Proof. unfold EULER. lra. Qed.

(** The two divisions of lines 50-51 are one division by [samples * EULER]. *)
Lemma mixVal_eq (samples : R) : samples <> 0 -> mixVal samples = 1 / (samples * EULER).
Proof.
  intros Hs. unfold mixVal. pose proof EULER_pos. field. split; lra.
Qed.

Lemma mixVal_pos (samples : R) : 0 < samples -> 0 < mixVal samples.
Proof.
  intros Hs. rewrite mixVal_eq by lra.
  apply Rdiv_lt_0_compat; [lra |]. pose proof EULER_pos. nra.
Qed.

Lemma mixVal_one : 0.3678 < mixVal 1 < 0.3679.
Proof. unfold mixVal, EULER. lra. Qed.

Lemma length_zero : length (Vec3 0 0 0) = 0.
Proof.
  unfold length. simpl. replace (0 * 0 + 0 * 0 + 0 * 0) with 0 by lra. apply sqrt_0.
Qed.

(** The history colour of the edge scene at the origin: half red. *)
Lemma edge_history_at_origin :
  history edge_history leftwards origin = Vec3 (1 / 2) 0 0.
Proof.
  unfold history, lastFrameReflectionsProjectedTexel, texture2D, edge_history,
    leftwards, origin, xy, sub2, add3, div3. simpl.
  destruct (Rle_dec 0 0) as [_ | H]; [| exfalso; lra].
  destruct (Rle_dec (0 - -1) 0) as [H | _]; [exfalso; lra |].
  simpl. f_equal; lra.
Qed.

Lemma edge_reprojected_at_origin :
  rgb (lastFrameReflectionsProjectedTexel edge_history leftwards origin) = Vec3 0 0 0.
Proof.
  unfold lastFrameReflectionsProjectedTexel, texture2D, edge_history,
    leftwards, origin, xy, sub2. simpl.
  destruct (Rle_dec (0 - -1) 0) as [H | _]; [exfalso; lra | reflexivity].
Qed.

Lemma length_half_red : ~ length (Vec3 (1 / 2) 0 0) < 0.001.
Proof.
  unfold length. simpl.
  replace (1 / 2 * (1 / 2) + 0 * 0 + 0 * 0) with ((1 / 2) * (1 / 2)) by lra.
  rewrite sqrt_square by lra. lra.
Qed.

(** What the shader writes for the edge scene at the origin. *)
Lemma edge_resolved (samples : R) :
  rgb (main true no_reflection edge_history leftwards samples origin)
  = mix3 (Vec3 (1 / 2) 0 0) (Vec3 0 0 0) (mixVal samples).
Proof.
  unfold main. rewrite edge_history_at_origin.
  destruct (Rlt_dec _ _) as [H | _]; [destruct (length_half_red H) | reflexivity].
Qed.

(** C1, as stated, fails: on the edge scene the shader blends with the
    mean of the history texel at [vUv] and the one at [vUv - velUv] (half
    red), and writes a red component of [(1 - w) / 2], where the blend with
    the reprojected texel alone (black) gives black. *)
Lemma temporal_blend_not_reprojected_only :
  1 <= 1 /\
  rgb (main true no_reflection edge_history leftwards 1 origin)
  <> spec_blend no_reflection edge_history leftwards 1 origin.
Proof.
  split; [lra |].
  rewrite edge_resolved. unfold spec_blend.
  rewrite edge_reprojected_at_origin.
  unfold mix3, mix, texture2D, no_reflection, black. simpl.
  intros H. injection H as H.
  pose proof mixVal_one. lra.
Qed.

(** C1, amended: in temporal mode with [samples >= 1] the history colour is
    the mean of the last frame's texel at [vUv] and its texel at
    [vUv - velocity(vUv)]; unless that colour is shorter than 0.001 the
    resolved colour is [mix(history, current, w)] with [w = 1/(samples*EULER)];
    and the resolved confidence is always
    [mix(previous confidence at vUv, current confidence + 0.5, w)]. *)
Theorem temporal_blend
    (inputBuffer lastFrameReflectionsBuffer velocityBuffer : sampler2D)
    (samples : R) (vUv : vec2) :
  1 <= samples ->
  let w := 1 / (samples * EULER) in
  let current := texture2D inputBuffer vUv in
  let previous := texture2D lastFrameReflectionsBuffer vUv in
  let reprojected :=
    texture2D lastFrameReflectionsBuffer
      (sub2 vUv (xy (texture2D velocityBuffer vUv))) in
  let h := div3 (add3 (rgb previous) (rgb reprojected)) 2 in
  let out := main true inputBuffer lastFrameReflectionsBuffer velocityBuffer samples vUv in
  (~ length h < 0.001 -> rgb out = mix3 h (rgb current) w)
  /\ a out = mix (a previous) (a current + 0.5) w.
Proof.
  intros Hs w current previous reprojected h out.
  assert (Hw : mixVal samples = w) by (apply mixVal_eq; lra).
  subst out. unfold main. fold current previous.
  change (history lastFrameReflectionsBuffer velocityBuffer vUv) with h.
  rewrite Hw. split.
  - intros Hlen. simpl. destruct (Rlt_dec (length h) 0.001); [contradiction | reflexivity].
  - reflexivity.
Qed.

Lemma temporal_blend_witness :
  rgb (main true no_reflection edge_history leftwards 1 origin)
  = mix3 (Vec3 (1 / 2) 0 0) (Vec3 0 0 0) (1 / (1 * EULER)).
Proof.
  pose proof (temporal_blend no_reflection edge_history leftwards 1 origin
                ltac:(lra)) as [H _].
  cbv zeta in H.
  change (div3 _ 2) with (history edge_history leftwards origin) in H.
  rewrite edge_history_at_origin in H.
  exact (H length_half_red).
Defined.

(** C2, as stated, fails: on the edge scene the reprojected history colour
    is black (length 0), yet the shader takes the standard blend, because the
    colour it measures is the mean with the texel at [vUv], which is half
    red. *)
Lemma disocclusion_not_on_reprojected :
  length (rgb (lastFrameReflectionsProjectedTexel edge_history leftwards origin)) < 0.001
  /\ rgb (main true no_reflection edge_history leftwards 1 origin)
     <> spec_disocclusion no_reflection edge_history leftwards origin.
Proof.
  split.
  - rewrite edge_reprojected_at_origin, length_zero. lra.
  - rewrite edge_resolved. unfold spec_disocclusion.
    rewrite edge_reprojected_at_origin.
    unfold mix3, mix, add3, texture2D, no_reflection, black. simpl.
    intros H. injection H as H.
    pose proof mixVal_one. lra.
Qed.

(** C2, amended: in temporal mode, whenever the history colour the shader
    blends with (the mean of the last frame's texel at [vUv] and its texel at
    [vUv - velocity(vUv)]) is shorter than 0.001, the resolved colour is
    [mix(history, history + current, 0.25)], whatever the sample count. *)
Theorem disocclusion
    (inputBuffer lastFrameReflectionsBuffer velocityBuffer : sampler2D)
    (samples : R) (vUv : vec2) :
  let current := texture2D inputBuffer vUv in
  let previous := texture2D lastFrameReflectionsBuffer vUv in
  let reprojected :=
    texture2D lastFrameReflectionsBuffer
      (sub2 vUv (xy (texture2D velocityBuffer vUv))) in
  let h := div3 (add3 (rgb previous) (rgb reprojected)) 2 in
  length h < 0.001 ->
  rgb (main true inputBuffer lastFrameReflectionsBuffer velocityBuffer samples vUv)
  = mix3 h (add3 h (rgb current)) 0.25.
Proof.
  intros current previous reprojected h Hlen.
  unfold main. fold current.
  change (history lastFrameReflectionsBuffer velocityBuffer vUv) with h.
  simpl. destruct (Rlt_dec (length h) 0.001); [reflexivity | contradiction].
Qed.

Lemma disocclusion_witness :
  rgb (main true (fun _ => red) no_reflection leftwards 7 origin)
  = mix3 (Vec3 0 0 0) (Vec3 1 0 0) 0.25.
Proof.
  pose proof (disocclusion (fun _ => red) no_reflection leftwards 7 origin) as H.
  cbv zeta in H.
  assert (E : div3 (add3 (rgb (texture2D no_reflection origin))
                         (rgb (texture2D no_reflection
                                 (sub2 origin (xy (texture2D leftwards origin)))))) 2
              = Vec3 0 0 0).
  { unfold div3, add3, texture2D, no_reflection, black. simpl. f_equal; lra. }
  rewrite E in H. rewrite H.
  - unfold add3, texture2D, red. simpl.
    replace (0 + 1) with 1 by lra. replace (0 + 0) with 0 by lra. reflexivity.
  - rewrite length_zero. lra.
Defined.

Lemma mixVal_decreasing (x y : R) : 0 < x -> x < y -> mixVal y < mixVal x.
Proof.
  intros Hx Hxy. rewrite !mixVal_eq by lra.
  pose proof EULER_pos as He.
  assert (Hx' : 0 < x * EULER) by nra.
  assert (Hy' : 0 < y * EULER) by nra.
  unfold Rdiv. rewrite !Rmult_1_l.
  apply Rinv_lt_contravar; [apply Rmult_lt_0_compat; assumption | nra].
Qed.

Lemma mixVal_vanishes : Un_cv (fun n => mixVal (INR n)) 0.
Proof.
  intros eps Heps.
  destruct (archimed_cor1 eps Heps) as [N [HN HN0]].
  exists N. intros n Hn.
  assert (Hn0 : 0 < INR n) by (apply lt_0_INR; lia).
  assert (HNn : INR N <= INR n) by (apply le_INR; lia).
  assert (HN1 : 0 < INR N) by (apply lt_0_INR; lia).
  unfold Rdist. rewrite Rminus_0_r, Rabs_pos_eq by (left; apply mixVal_pos; lra).
  rewrite mixVal_eq by lra.
  apply Rle_lt_trans with (/ INR N); [| exact HN].
  unfold Rdiv. rewrite Rmult_1_l.
  apply Rinv_le_contravar; [lra |].
  pose proof EULER_pos. unfold EULER in *. nra.
Qed.

(** C3.  With [n] the sample count, the weight computed on lines 50-51 is
    [1/(n*EULER)], where the shader's constant [EULER] is Euler's number
    [exp 1] to fifteen decimals, so that the weight is within [10^-15] of
    [1/(n*e)]; at [n = 1] it is 0.3679 to four decimals; it is strictly
    decreasing in [n]; and it tends to 0 as [n] grows. *)
Theorem blend_weight :
  (forall n : nat, (1 <= n)%nat -> mixVal (INR n) = 1 / (INR n * EULER))
  /\ 0 < exp 1 - EULER < 1 / 10 ^ 15
  /\ (forall n : nat, (1 <= n)%nat ->
        Rabs (mixVal (INR n) - 1 / (INR n * exp 1)) < 1 / 10 ^ 15)
  /\ Rabs (mixVal 1 - 0.3679) < 0.0001
  /\ (forall n m : nat, (1 <= n)%nat -> (n < m)%nat ->
        mixVal (INR m) < mixVal (INR n))
  /\ Un_cv (fun n => mixVal (INR n)) 0.
Proof.
  repeat split.
  - intros n Hn. apply mixVal_eq.
    assert (0 < INR n) by (apply lt_0_INR; lia). lra.
  - apply EULER_close.
  - apply EULER_close.
  - intros n Hn.
    assert (H1 : 1 <= INR n) by (change 1 with (INR 1); apply le_INR; lia).
    pose proof EULER_close as [Hlo Hhi]. pose proof EULER_pos as He.
    assert (Hexp : 0 < exp 1) by apply exp_pos.
    rewrite mixVal_eq by lra.
    replace (1 / (INR n * EULER) - 1 / (INR n * exp 1))
      with ((exp 1 - EULER) / (INR n * EULER * exp 1)) by (field; repeat split; lra).
    assert (Hd : 1 <= INR n * EULER * exp 1) by (unfold EULER in *; nra).
    rewrite Rabs_pos_eq
      by (apply Rlt_le, Rdiv_lt_0_compat; lra).
    apply Rle_lt_trans with (exp 1 - EULER); [| lra].
    apply Rmult_le_reg_r with (INR n * EULER * exp 1); [lra |].
    unfold Rdiv. rewrite Rmult_assoc, Rinv_l by lra. nra.
  - pose proof mixVal_one. apply Rabs_def1; lra.
  - intros n m Hn Hnm. apply mixVal_decreasing.
    + apply lt_0_INR. lia.
    + apply lt_INR. lia.
  - apply mixVal_vanishes.
Qed.

End ComposeFacts.

(* ===================================================================== *)
(** ** Properties of the effect                                           *)
(* ===================================================================== *)

Module EffectFacts.
Import JS SSREffect.

Lemma Ok_inj {A} (x y : A) : Ok x = Ok y -> x = y.
Proof. intros H. by injection H. Qed.

(** *** The switch *)

Ltac in_list := apply list_elem_of_In; simpl; auto 10.

Ltac switch_cases key :=
  unfold switch;
  repeat match goal with
         | |- context [String.eqb key ?lit] =>
             destruct (String.eqb_spec key lit) as [-> | ?];
             [simpl; intros ?; try discriminate; try reflexivity |]
         end;
  simpl; intros ?; try discriminate.

Lemma switch_allow_listed (key : string) :
  key ∈ noResetSamplesProperties ->
  (key = "blurMix" /\ switch key = case_blurMix)
  \/ (key = "blurSharpness" /\ switch key = case_blurSharpness)
  \/ (key = "blurKernelSize" /\ switch key = case_blurKernelSize).
Proof.
  unfold noResetSamplesProperties. rewrite !elem_of_cons, elem_of_nil.
  intros [-> | [-> | [-> | []]]]; auto.
Qed.

Lemma switch_default (key : string) :
  switch key = case_default -> key ∉ noResetSamplesProperties.
Proof.
  intros Hd Hin.
  destruct (switch_allow_listed key Hin) as [[_ H] | [[_ H] | [_ H]]]; congruence.
Qed.

Lemma switch_width (key : string) : switch key = case_width <-> key = "width".
Proof. split; [| intros ->; reflexivity]. switch_cases key. Qed.

Lemma switch_height (key : string) : switch key = case_height <-> key = "height".
Proof. split; [| intros ->; reflexivity]. switch_cases key. Qed.

(** *** setSize *)

Lemma setSize_forced (w h : value) (s : t) :
  setSize w h true s
  = with_lastSize {| width := w; height := h;
                     resolutionScale := this_get "resolutionScale" s;
                     velocityResolutionScale := this_get "velocityResolutionScale" s |}
      (with_reflectionsPass (Pass_setSize w h (reflectionsPass s))
         (with_temporalResolvePass (Pass_setSize w h (temporalResolvePass s)) s)).
Proof. reflexivity. Qed.

(** Whatever its arguments, [setSize] leaves alone everything but the two
    resize logs and [lastSize], and each log grows by at most one call. *)
Lemma setSize_frame (w h : value) (force : bool) (s : t) :
  let s' := setSize w h force s in
  options s' = options s /\ needsUpdate s' = needsUpdate s
  /\ reflectionPassFullscreenMaterialUniformsKeys s'
     = reflectionPassFullscreenMaterialUniformsKeys s
  /\ reactive s' = reactive s /\ samples s' = samples s
  /\ uniforms s' = uniforms s
  /\ usingBoxProjectedEnvMap s' = usingBoxProjectedEnvMap s
  /\ fullscreenMaterial (temporalResolvePass s') = fullscreenMaterial (temporalResolvePass s)
  /\ fullscreenMaterial (reflectionsPass s') = fullscreenMaterial (reflectionsPass s)
  /\ pass_velocityResolutionScale (temporalResolvePass s')
     = pass_velocityResolutionScale (temporalResolvePass s)
  /\ (exists l, resizes (temporalResolvePass s') = l ++ resizes (temporalResolvePass s))
  /\ (exists l, resizes (reflectionsPass s') = l ++ resizes (reflectionsPass s)).
Proof.
  unfold setSize.
  destruct (negb force && _ && _ && _ && _); simpl;
    repeat split; try reflexivity; try (by exists []); by eexists [_].
Qed.

Lemma setSize_unforced (w h : value) (s : t) :
  setSize w h false s = s \/ setSize w h false s = setSize w h true s.
Proof.
  unfold setSize. simpl. destruct (_ && _ && _ && _); auto.
Qed.

(** *** The setter *)

Section Setter.
Context {host : Host}.

Lemma setter_unchanged (key : string) (value : value) (s : t) :
  unchanged key value s = true -> setter key value s = Ok s.
Proof. unfold unchanged, setter. intros ->. reflexivity. Qed.

Lemma setter_changed (key : string) (value : value) (s : t) :
  unchanged key value s = false ->
  setter key value s = dispatch key value (preamble key value s).
Proof. unfold unchanged, setter. intros ->. reflexivity. Qed.

(** The preamble stores the value and touches no uniform, no define and no
    closure variable. *)
Lemma preamble_frame (key : string) (value : value) (s : t) :
  let p := preamble key value s in
  options p = <[key := value]> (options s)
  /\ needsUpdate p = needsUpdate s
  /\ reflectionPassFullscreenMaterialUniformsKeys p
     = reflectionPassFullscreenMaterialUniformsKeys s
  /\ uniforms p = uniforms s
  /\ fullscreenMaterial (temporalResolvePass p) = fullscreenMaterial (temporalResolvePass s)
  /\ fullscreenMaterial (reflectionsPass p) = fullscreenMaterial (reflectionsPass s).
Proof.
  unfold preamble. destruct (bool_decide _); simpl; repeat split; reflexivity.
Qed.

Lemma preamble_allow_listed (key : string) (value : value) (s : t) :
  key ∈ noResetSamplesProperties ->
  preamble key value s = with_options (<[key := value]> (options s)) s.
Proof.
  intros Hin. unfold preamble. rewrite bool_decide_eq_true_2 by exact Hin. reflexivity.
Qed.

(** Outside the allow-list the preamble zeroes the effect's [samples] and sends
    one resize, with the configured size, to each pass. *)
Lemma preamble_reset (key : string) (value : value) (s : t) :
  key ∉ noResetSamplesProperties ->
  let p := preamble key value s in
  samples p = num 0
  /\ resizes (temporalResolvePass p)
     = (opt "width" p, opt "height" p) :: resizes (temporalResolvePass s)
  /\ resizes (reflectionsPass p)
     = (opt "width" p, opt "height" p) :: resizes (reflectionsPass s)
  /\ width (lastSize p) = opt "width" p
  /\ height (lastSize p) = opt "height" p.
Proof.
  intros Hout. unfold preamble. rewrite bool_decide_eq_false_2 by exact Hout.
  rewrite setSize_forced. simpl. repeat split; reflexivity.
Qed.

Lemma opt_preamble (key : string) (value : value) (s : t) :
  opt key (preamble key value s) = value.
Proof.
  unfold opt. destruct (preamble_frame key value s) as [-> _].
  by rewrite lookup_insert_eq.
Qed.

(** Given the uniforms it relies on, the per-key part returns; it keeps the
    options and the effect's [samples], and only appends to the resize logs. *)
Lemma dispatch_returns (key : string) (value : value) (s : t) :
  uniforms_present s ->
  exists s', dispatch key value s = Ok s'
    /\ options s' = options s
    /\ samples s' = samples s
    /\ (exists l, resizes (temporalResolvePass s') = l ++ resizes (temporalResolvePass s))
    /\ (exists l, resizes (reflectionsPass s') = l ++ resizes (reflectionsPass s)).
Proof.
  intros (Hu & Ht & Hr).
  assert (Hsize : forall w h f s0,
            options s0 = options s -> samples s0 = samples s ->
            resizes (temporalResolvePass s0) = resizes (temporalResolvePass s) ->
            resizes (reflectionsPass s0) = resizes (reflectionsPass s) ->
            exists s', Ok (setSize w h f s0) = Ok s'
              /\ options s' = options s /\ samples s' = samples s
              /\ (exists l, resizes (temporalResolvePass s')
                            = l ++ resizes (temporalResolvePass s))
              /\ (exists l, resizes (reflectionsPass s')
                            = l ++ resizes (reflectionsPass s))).
  { intros w h f s0 Ho Hs Hrt Hrr.
    destruct (setSize_frame w h f s0)
      as (Ho' & _ & _ & _ & Hs' & _ & _ & _ & _ & _ & Hlt & Hlr).
    eexists. split; [reflexivity |].
    rewrite Ho', Hs', <- Hrt, <- Hrr. auto. }
  assert (Hsame : exists s', Ok s = Ok s'
            /\ options s' = options s /\ samples s' = samples s
            /\ (exists l, resizes (temporalResolvePass s')
                          = l ++ resizes (temporalResolvePass s))
            /\ (exists l, resizes (reflectionsPass s')
                          = l ++ resizes (reflectionsPass s))).
  { exists s. repeat split; by exists []. }
  assert (Hblur : forall name, name ∈ noResetSamplesProperties ->
            exists s', set_uniform name value s = Ok s'
              /\ options s' = options s /\ samples s' = samples s
              /\ (exists l, resizes (temporalResolvePass s')
                            = l ++ resizes (temporalResolvePass s))
              /\ (exists l, resizes (reflectionsPass s')
                            = l ++ resizes (reflectionsPass s))).
  { intros name Hin. destruct (Hu name Hin) as [v Hv].
    unfold set_uniform. rewrite Hv. eexists. split; [reflexivity |].
    simpl. repeat split; by exists []. }
  assert (Htr : forall name, name ∈ temporalResolveUniforms ->
            exists s', on_temporalResolveMaterial (write_uniform name value) s = Ok s'
              /\ options s' = options s /\ samples s' = samples s
              /\ (exists l, resizes (temporalResolvePass s')
                            = l ++ resizes (temporalResolvePass s))
              /\ (exists l, resizes (reflectionsPass s')
                            = l ++ resizes (reflectionsPass s))).
  { intros name Hin. destruct (Ht name Hin) as [v Hv].
    unfold on_temporalResolveMaterial, write_uniform. rewrite Hv.
    eexists. split; [reflexivity |]. simpl. repeat split; by exists []. }
  unfold dispatch. destruct (switch key).
  - by apply Hsize.
  - by apply Hsize.
  - destruct (strict_eq value VUndefined); [exact Hsame | by apply Hsize].
  - destruct (strict_eq value VUndefined); [exact Hsame | by apply Hsize].
  - apply Hblur. in_list.
  - apply Hblur. in_list.
  - apply Hblur. in_list.
  - eexists. split; [reflexivity |]. simpl. repeat split; by exists [].
  - eexists. split; [reflexivity |]. simpl. repeat split; by exists [].
  - destruct (truthy value);
      (eexists; split; [reflexivity |]; simpl; repeat split; by exists []).
  - eexists. split; [reflexivity |]. simpl. repeat split; by exists [].
  - apply Htr. in_list.
  - apply Htr. in_list.
  - apply Htr. in_list.
  - case_bool_decide as Hk; [| exact Hsame].
    destruct (Hr key Hk) as [v Hv].
    unfold on_reflectionsMaterial, write_uniform. rewrite Hv.
    eexists. split; [reflexivity |]. simpl. repeat split; by exists [].
Qed.

Lemma preamble_present (key : string) (value : value) (s : t) :
  uniforms_present s -> uniforms_present (preamble key value s).
Proof.
  unfold uniforms_present.
  destruct (preamble_frame key value s) as (_ & _ & -> & -> & -> & ->). auto.
Qed.

(** *** What every assignment preserves *)

Lemma dom_insert_present (m : gmap string value) (k : string) (v : value) :
  is_Some (m !! k) -> dom (<[k := v]> m) = dom m.
Proof.
  intros H. apply elem_of_dom in H. rewrite dom_insert_L.
  apply subseteq_union_1_L. by apply singleton_subseteq_l.
Qed.

Lemma same_shape_refl (s : t) : same_shape s s.
Proof. repeat split. Qed.

Lemma same_shape_trans (s1 s2 s3 : t) :
  same_shape s1 s2 -> same_shape s2 s3 -> same_shape s1 s3.
Proof.
  intros (A1 & A2 & A3 & A4 & A5) (B1 & B2 & B3 & B4 & B5).
  repeat split; congruence.
Qed.

Lemma setSize_same_shape (w h : value) (force : bool) (s : t) :
  same_shape s (setSize w h force s).
Proof.
  destruct (setSize_frame w h force s)
    as (_ & H1 & H2 & _ & _ & H4 & _ & H5 & H6 & _).
  repeat split; congruence.
Qed.

Lemma preamble_same_shape (key : string) (value : value) (s : t) :
  same_shape s (preamble key value s).
Proof.
  unfold preamble. destruct (bool_decide _).
  - repeat split.
  - eapply same_shape_trans; [| apply setSize_same_shape]. repeat split.
Qed.

Lemma write_uniform_dom (name : string) (v : value) (m m' : ShaderMaterial) :
  write_uniform name v m = Ok m' -> dom (mat_uniforms m') = dom (mat_uniforms m).
Proof.
  unfold write_uniform. destruct (mat_uniforms m !! name) eqn:E; [| discriminate].
  intros H. apply Ok_inj in H. subst m'. simpl. apply dom_insert_present. eauto.
Qed.

Lemma dispatch_same_shape (key : string) (value : value) (s s' : t) :
  dispatch key value s = Ok s' -> same_shape s s'.
Proof.
  assert (Hblur : forall name, set_uniform name value s = Ok s' -> same_shape s s').
  { intros name. unfold set_uniform.
    destruct (uniforms s !! name) eqn:E; [| discriminate].
    intros H. apply Ok_inj in H. subst s'. repeat split. simpl.
    apply dom_insert_present. eauto. }
  assert (Htr : forall f,
            (forall m m', f m = Ok m' -> dom (mat_uniforms m') = dom (mat_uniforms m)) ->
            on_temporalResolveMaterial f s = Ok s' -> same_shape s s').
  { intros f Hf. unfold on_temporalResolveMaterial.
    destruct (f _) as [m |] eqn:E; [| discriminate]. simpl.
    intros H. apply Ok_inj in H. subst s'. repeat split. simpl. by apply Hf. }
  assert (Hrp : forall f,
            (forall m m', f m = Ok m' -> dom (mat_uniforms m') = dom (mat_uniforms m)) ->
            on_reflectionsMaterial f s = Ok s' -> same_shape s s').
  { intros f Hf. unfold on_reflectionsMaterial.
    destruct (f _) as [m |] eqn:E; [| discriminate]. simpl.
    intros H. apply Ok_inj in H. subst s'. repeat split. simpl. by apply Hf. }
  assert (Hdef : forall name v f m m', define name v f m = Ok m' ->
            dom (mat_uniforms m') = dom (mat_uniforms m)).
  { intros name v f m m' H. apply Ok_inj in H. by subst m'. }
  assert (Hundef : forall name f m m', undefine name f m = Ok m' ->
            dom (mat_uniforms m') = dom (mat_uniforms m)).
  { intros name f m m' H. apply Ok_inj in H. by subst m'. }
  unfold dispatch. destruct (switch key).
  - intros H. apply Ok_inj in H. subst s'. apply setSize_same_shape.
  - intros H. apply Ok_inj in H. subst s'.
    eapply same_shape_trans; [| apply setSize_same_shape]. repeat split.
  - destruct (strict_eq value VUndefined); intros H; apply Ok_inj in H; subst s';
      [apply same_shape_refl | apply setSize_same_shape].
  - destruct (strict_eq value VUndefined); intros H; apply Ok_inj in H; subst s';
      [apply same_shape_refl | apply setSize_same_shape].
  - apply Hblur.
  - apply Hblur.
  - apply Hblur.
  - apply Hrp, Hdef.
  - apply Hrp, Hdef.
  - destruct (truthy value); [apply Hrp, Hdef | apply Hrp, Hundef].
  - apply Htr, Hdef.
  - apply Htr, write_uniform_dom.
  - apply Htr, write_uniform_dom.
  - apply Htr, write_uniform_dom.
  - case_bool_decide as Hk.
    + apply Hrp, write_uniform_dom.
    + intros H. apply Ok_inj in H. subst s'. apply same_shape_refl.
Qed.

(** An assignment that returns keeps [needsUpdate], the key list of line 86
    and the set of uniforms of the effect and of each pass. *)
Lemma setter_same_shape (key : string) (value : value) (s s' : t) :
  setter key value s = Ok s' -> same_shape s s'.
Proof.
  destruct (unchanged key value s) eqn:Hguard.
  - rewrite setter_unchanged by exact Hguard.
    intros H. apply Ok_inj in H. subst s'. apply same_shape_refl.
  - rewrite setter_changed by exact Hguard. intros H.
    eapply same_shape_trans; [apply preamble_same_shape |].
    eapply dispatch_same_shape, H.
Qed.

Lemma same_shape_present (s s' : t) :
  same_shape s s' -> uniforms_present s -> uniforms_present s'.
Proof.
  intros (_ & Hk & Hu & Ht & Hr) (Pu & Pt & Pr).
  repeat split; intros name Hin; apply elem_of_dom.
  - rewrite Hu. by apply elem_of_dom, Pu.
  - rewrite Ht. by apply elem_of_dom, Pt.
  - rewrite Hr. apply elem_of_dom, Pr. by rewrite <- Hk.
Qed.

(** The uniforms the setters rely on stay in place, and the guard of line 94
    stays armed, across every assignment that returns. *)
Lemma setter_invariant (key : string) (value : value) (s s' : t) :
  setter key value s = Ok s' ->
  (uniforms_present s -> uniforms_present s')
  /\ needsUpdate s' = needsUpdate s.
Proof.
  intros H. pose proof (setter_same_shape key value s s' H) as Hshape.
  split; [by apply same_shape_present | apply Hshape].
Qed.

(** [makeOptionsReactive] ends with [needsUpdate] set. *)
Lemma makeOptionsReactive_needsUpdate (opts : list (string * value)) (s s' : t) :
  makeOptionsReactive opts s = Ok s' -> needsUpdate s' = true.
Proof.
  unfold makeOptionsReactive. destruct (defineProperties _ _); [| discriminate].
  simpl. intros H. apply Ok_inj in H. by subst s'.
Qed.

Lemma defineProperties_same_shape (keys : list string) (s s' : t) :
  defineProperties keys s = Ok s' -> same_shape s s'.
Proof.
  revert s. induction keys as [| key keys IH]; intros s; simpl.
  - intros H. apply Ok_inj in H. subst s'. apply same_shape_refl.
  - case_bool_decide as Hnew; [discriminate |].
    destruct (setter key _ _) as [s1 |] eqn:E; [| discriminate]. simpl.
    intros H. apply setter_same_shape in E. apply IH in H.
    eapply same_shape_trans; [| exact H].
    eapply same_shape_trans; [| exact E]. repeat split.
Qed.

(** An effect that the constructor returns has [needsUpdate] set and, when
    the temporal resolve pass came with the three uniforms of lines 163-171,
    all the uniforms its setters rely on. *)
Lemma constructor_establishes
    (defaultSSROptions options : list (string * value))
    (trp rp : Pass) (texture : value) (s : t) :
  constructor defaultSSROptions options trp rp texture = Ok s ->
  (forall name, name ∈ temporalResolveUniforms ->
     is_Some (mat_uniforms (fullscreenMaterial trp) !! name)) ->
  uniforms_present s /\ needsUpdate s = true.
Proof.
  unfold constructor. intros H Htr.
  split; [| eapply makeOptionsReactive_needsUpdate, H].
  revert H. unfold makeOptionsReactive.
  destruct (defineProperties _ _) as [s1 |] eqn:E; [| discriminate]. simpl.
  intros H. apply Ok_inj in H. subst s.
  apply defineProperties_same_shape in E.
  enough (P : uniforms_present s1) by exact P.
  eapply same_shape_present; [exact E |].
  match type of E with same_shape (with_uniformsKeys _ (with_needsUpdate _
                         (with_options _ (setSize ?w ?h ?f ?s0)))) _ =>
    destruct (setSize_frame w h f s0) as (_ & _ & _ & _ & _ & Hu & _ & Ht & Hr & _);
    set (s2 := setSize w h f s0) in *; clearbody s2
  end.
  simpl in Hu, Ht, Hr. clear E.
  unfold uniforms_present. simpl. split; [| split]; intros name Hin.
  - rewrite Hu. apply list_elem_of_In in Hin. simpl in Hin.
    destruct Hin as [<- | [<- | [<- | []]]]; apply elem_of_dom;
      rewrite !dom_insert_L; set_solver.
  - rewrite Ht. by apply Htr.
  - by apply elem_of_dom.
Qed.

End Setter.

(** *** The concrete effect *)

Lemma an_effect_returns : an_effect = Ok constructed.
Proof. vm_compute. reflexivity. Qed.

(** Line 78 of that constructor call. *)
Lemma an_effect_line_78 :
  an_effect = makeOptionsReactive merged_options before_makeOptionsReactive.
Proof. reflexivity. Qed.

Lemma constructed_needsUpdate : needsUpdate constructed = true.
Proof. vm_compute. reflexivity. Qed.

Lemma constructed_keys :
  reflectionPassFullscreenMaterialUniformsKeys constructed
  = dom (mat_uniforms (fullscreenMaterial (reflectionsPass constructed))).
Proof. vm_compute. reflexivity. Qed.

Lemma constructed_present : uniforms_present constructed.
Proof.
  repeat split; intros name Hin.
  - apply list_elem_of_In in Hin. simpl in Hin.
    destruct Hin as [<- | [<- | [<- | []]]]; vm_compute; eauto.
  - apply list_elem_of_In in Hin. simpl in Hin.
    destruct Hin as [<- | [<- | [<- | []]]]; vm_compute; eauto.
  - rewrite constructed_keys in Hin. apply elem_of_dom in Hin. exact Hin.
Qed.

Lemma longer_list_differs {A} (l k : list A) (x : A) : k <> l ++ x :: k.
Proof.
  intros H. apply (f_equal List.length) in H.
  rewrite length_app in H. simpl in H. lia.
Qed.

(** *** C4 *)

(** C4, as stated, fails: after construction, assigning [MAX_STEPS] (a key
    outside the allow-list) the value it already has returns the effect
    unchanged, so that no pass is resized. *)
Lemma same_value_skips_forced_resize :
  ("MAX_STEPS" ∉ noResetSamplesProperties)
  /\ setter "MAX_STEPS" (num 20) constructed = Ok constructed
  /\ ~ resets_and_resizes "MAX_STEPS" (num 20) constructed.
Proof.
  assert (Hset : setter "MAX_STEPS" (num 20) constructed = Ok constructed)
    by (apply setter_unchanged; vm_compute; reflexivity).
  split; [| split; [exact Hset |]].
  - intros Hin. apply list_elem_of_In in Hin. simpl in Hin.
    destruct Hin as [H | [H | [H | []]]]; discriminate H.
  - intros (s' & Hs' & _ & [l Hl] & _).
    rewrite Hset in Hs'. apply Ok_inj in Hs'. subst s'.
    exact (longer_list_differs _ _ _ Hl).
Qed.

(** C4, amended: for every key outside the allow-list that has an accessor,
    an assignment that is not skipped by the guard of line 94 (the value
    differs from the current one, or the options are still being installed)
    returns, leaves the effect's own [samples] property at 0 (line 99) and the
    value stored, and has sent each of the two passes a resize to the
    configured width and height, whatever the last size was (line 100). *)
Theorem reset_outside_allow_list {host : Host}
    (key : string) (value : value) (s : t) :
  key ∈ reactive s ->
  key ∉ noResetSamplesProperties ->
  uniforms_present s ->
  unchanged key value s = false ->
  resets_and_resizes key value s /\
  (forall s', setter key value s = Ok s' -> opt key s' = value).
Proof.
  intros _ Hout Hpresent Hguard.
  pose proof (preamble_reset key value s Hout) as (Hs & Hrt & Hrr & _).
  destruct (dispatch_returns key value (preamble key value s)
              (preamble_present key value s Hpresent))
    as (s' & Hd & Ho & Hsam & [lt Hlt] & [lr Hlr]).
  assert (Hopt : forall k, opt k s' = opt k (preamble key value s))
    by (intros k; unfold opt; by rewrite Ho).
  split.
  - exists s'. rewrite setter_changed by exact Hguard.
    split; [exact Hd |]. split; [congruence |].
    rewrite !Hopt. split.
    + exists lt. by rewrite Hlt, Hrt.
    + exists lr. by rewrite Hlr, Hrr.
  - intros s'' Hs''. rewrite setter_changed, Hd in Hs'' by exact Hguard.
    apply Ok_inj in Hs''. subst s''. rewrite Hopt. apply opt_preamble.
Qed.

Lemma reset_outside_allow_list_witness :
  resets_and_resizes "MAX_STEPS" (num 30) constructed.
Proof.
  apply (reset_outside_allow_list "MAX_STEPS" (num 30) constructed).
  - apply (bool_decide_unpack _). vm_compute. reflexivity.
  - intros Hin. apply list_elem_of_In in Hin. simpl in Hin.
    destruct Hin as [H | [H | [H | []]]]; discriminate H.
  - exact constructed_present.
  - vm_compute. reflexivity.
Defined.

(** *** C5 *)

(** C5.  For a key of the allow-list whose uniform exists on the effect (it is
    created on lines 41-43), an assignment returns; the sample count, the last
    size and both passes (their buffers, their resize logs, their materials)
    are as before; no uniform other than the one named by the key changes; and
    unless the guard of line 94 skips the assignment, that uniform and the
    option hold the value. *)
Theorem allow_listed_writes_only_uniform {host : Host}
    (key : string) (value : value) (s : t) :
  key ∈ noResetSamplesProperties ->
  is_Some (uniforms s !! key) ->
  exists s', setter key value s = Ok s'
    /\ samples s' = samples s
    /\ lastSize s' = lastSize s
    /\ temporalResolvePass s' = temporalResolvePass s
    /\ reflectionsPass s' = reflectionsPass s
    /\ (forall name, name <> key -> uniforms s' !! name = uniforms s !! name)
    /\ (unchanged key value s = false ->
          uniforms s' !! key = Some value /\ opt key s' = value).
Proof.
  intros Hin [v Hv].
  destruct (unchanged key value s) eqn:Hguard.
  - exists s. rewrite setter_unchanged by exact Hguard.
    repeat split; auto; discriminate.
  - rewrite setter_changed, preamble_allow_listed by assumption.
    assert (Hd : dispatch key value (with_options (<[key := value]> (options s)) s)
                 = set_uniform key value (with_options (<[key := value]> (options s)) s)).
    { unfold dispatch.
      destruct (switch_allow_listed key Hin) as [[-> ->] | [[-> ->] | [-> ->]]];
        reflexivity. }
    rewrite Hd. unfold set_uniform. simpl. rewrite Hv.
    eexists. split; [reflexivity |]. simpl.
    repeat split; try reflexivity.
    + intros name Hne. by rewrite lookup_insert_ne.
    + by rewrite lookup_insert_eq.
    + unfold opt. simpl. by rewrite lookup_insert_eq.
Qed.

Lemma allow_listed_writes_only_uniform_witness :
  exists s', setter "blurMix" (num 0.25) constructed = Ok s'
    /\ samples s' = samples constructed
    /\ temporalResolvePass s' = temporalResolvePass constructed
    /\ reflectionsPass s' = reflectionsPass constructed
    /\ uniforms s' !! "blurMix" = Some (num 0.25).
Proof.
  destruct (allow_listed_writes_only_uniform "blurMix" (num 0.25) constructed)
    as (s' & Hs' & H1 & _ & H3 & H4 & _ & H6).
  - in_list.
  - vm_compute. eauto.
  - exists s'. repeat split; try assumption.
    apply H6. vm_compute. reflexivity.
Defined.

(** *** C6 *)

(** C6.  [setSize(width, height, force)] returns the effect as it is (no
    pass resized, [lastSize] kept) when [force] is false and the width, the
    height, [resolutionScale] and [velocityResolutionScale] are strictly equal
    to those of [lastSize]; with [force] true it always sends the resize to
    both passes and records the four values in [lastSize]; and with [force]
    false and a value that differs it does the same as with [force] true. *)
Theorem setSize_skips_unless_forced (w h : value) (s : t) :
  let same :=
    strict_eq w (width (lastSize s)) && strict_eq h (height (lastSize s))
    && strict_eq (this_get "resolutionScale" s) (resolutionScale (lastSize s))
    && strict_eq (this_get "velocityResolutionScale" s)
                 (velocityResolutionScale (lastSize s)) in
  (same = true -> setSize w h false s = s)
  /\ (resizes (temporalResolvePass (setSize w h true s))
        = (w, h) :: resizes (temporalResolvePass s)
      /\ resizes (reflectionsPass (setSize w h true s))
        = (w, h) :: resizes (reflectionsPass s)
      /\ lastSize (setSize w h true s)
        = {| width := w; height := h;
             resolutionScale := this_get "resolutionScale" s;
             velocityResolutionScale := this_get "velocityResolutionScale" s |})
  /\ (same = false -> setSize w h false s = setSize w h true s).
Proof.
  intros same. split; [| split].
  - intros Hsame. unfold setSize. simpl. fold same. by rewrite Hsame.
  - rewrite setSize_forced. simpl. auto.
  - intros Hsame. unfold setSize. simpl. fold same. by rewrite Hsame.
Qed.

Lemma setSize_skips_unless_forced_witness :
  setSize (num 800) (num 600) false constructed = constructed.
Proof.
  pose proof (setSize_skips_unless_forced (num 800) (num 600) constructed) as [H _].
  apply H. vm_compute. reflexivity.
Defined.

(** *** C7 *)

(** C7, as stated, fails: [DILATION] has no case of its own and names no
    uniform of the reflections pass, yet assigning it a new value after
    construction resizes both passes. *)
Lemma unrecognized_key_still_resizes :
  switch "DILATION" = case_default
  /\ ("DILATION" ∉ reflectionPassFullscreenMaterialUniformsKeys constructed)
  /\ (exists s', setter "DILATION" (VBool false) constructed = Ok s'
        /\ resizes (temporalResolvePass s')
           = (num 800, num 600) :: resizes (temporalResolvePass constructed))
  /\ ~ ignored "DILATION" (VBool false) constructed.
Proof.
  assert (Hset : exists s', setter "DILATION" (VBool false) constructed = Ok s'
        /\ resizes (temporalResolvePass s')
           = (num 800, num 600) :: resizes (temporalResolvePass constructed)).
  { eexists. split; [vm_compute; reflexivity |]. vm_compute. reflexivity. }
  split; [reflexivity |]. split; [| split; [exact Hset |]].
  - rewrite constructed_keys. apply not_elem_of_dom. vm_compute. reflexivity.
  - destruct Hset as (s1 & Hs1 & Hr1).
    intros (s' & Hs' & _ & _ & _ & _ & Hr & _).
    rewrite Hs1 in Hs'. apply Ok_inj in Hs'. subst s'.
    rewrite Hr1 in Hr.
    exact (longer_list_differs [] _ _ (eq_sym Hr)).
Qed.

(** C7, amended: assigning a value to a key that has an accessor but no
    case of its own, and that names no uniform of the reflections pass, raises
    no error and writes no uniform and no define; but, as for every key
    outside the allow-list and unless the guard of line 94 skips the
    assignment, the value is stored, the effect's own [samples] property is
    set to 0 (line 99) and each pass receives one forced resize to the
    configured size.  (A key that was never among the options has no
    accessor: no setter runs for it.) *)
Theorem unrecognized_key_only_resets {host : Host}
    (key : string) (value : value) (s : t) :
  key ∈ reactive s ->
  switch key = case_default ->
  key ∉ reflectionPassFullscreenMaterialUniformsKeys s ->
  unchanged key value s = false ->
  exists s', setter key value s = Ok s'
    /\ uniforms s' = uniforms s
    /\ fullscreenMaterial (temporalResolvePass s') = fullscreenMaterial (temporalResolvePass s)
    /\ fullscreenMaterial (reflectionsPass s') = fullscreenMaterial (reflectionsPass s)
    /\ opt key s' = value
    /\ samples s' = num 0
    /\ resizes (temporalResolvePass s')
       = (opt "width" s', opt "height" s') :: resizes (temporalResolvePass s)
    /\ resizes (reflectionsPass s')
       = (opt "width" s', opt "height" s') :: resizes (reflectionsPass s).
Proof.
  intros _ Hsw Hkey Hguard.
  exists (preamble key value s).
  pose proof (preamble_frame key value s) as (_ & _ & Hk & Hu & Ht & Hr).
  pose proof (preamble_reset key value s (switch_default key Hsw))
    as (Hs & Hrt & Hrr & _).
  split.
  - rewrite setter_changed by exact Hguard. unfold dispatch. rewrite Hsw.
    rewrite Hk. by rewrite bool_decide_eq_false_2.
  - repeat split; try assumption. apply opt_preamble.
Qed.

Lemma unrecognized_key_only_resets_witness :
  exists s', setter "BOX_BLUR" VNull constructed = Ok s'
    /\ samples s' = num 0
    /\ resizes (reflectionsPass s')
       = (opt "width" s', opt "height" s') :: resizes (reflectionsPass constructed).
Proof.
  destruct (unrecognized_key_only_resets "BOX_BLUR" VNull constructed)
    as (s' & Hs' & _ & _ & _ & _ & Hsam & _ & Hr).
  - apply (bool_decide_unpack _). vm_compute. reflexivity.
  - reflexivity.
  - rewrite constructed_keys. apply not_elem_of_dom. vm_compute. reflexivity.
  - vm_compute. reflexivity.
  - exists s'. auto.
Defined.

(** *** C8 *)

(** The guard of lines 114 and 119 comes after the preamble: for [width] and
    [height] an assignment that is not skipped on line 94 returns for every
    value, and with [undefined] it skips only the call of [setSize] of its own
    case, after lines 96-101 have stored [undefined] and sent each pass the
    forced resize with it. *)
Lemma undefined_dimension_skips_scaled_resize {host : Host}
    (key : string) (value : value) (s : t) :
  key = "width" \/ key = "height" ->
  unchanged key value s = false ->
  (exists s', setter key value s = Ok s')
  /\ (value = VUndefined ->
      exists s', setter key value s = Ok s'
        /\ opt key s' = VUndefined
        /\ resizes (temporalResolvePass s')
           = (opt "width" s', opt "height" s') :: resizes (temporalResolvePass s)
        /\ resizes (reflectionsPass s')
           = (opt "width" s', opt "height" s') :: resizes (reflectionsPass s)).
Proof.
  intros Hkey Hguard.
  assert (Hout : key ∉ noResetSamplesProperties).
  { intros Hin. apply list_elem_of_In in Hin. simpl in Hin.
    destruct Hkey as [-> | ->]; destruct Hin as [H | [H | [H | []]]]; discriminate H. }
  rewrite setter_changed by exact Hguard.
  split.
  - unfold dispatch.
    destruct Hkey as [-> | ->]; simpl;
      destruct (strict_eq value VUndefined); eauto.
  - intros ->. exists (preamble key VUndefined s).
    pose proof (preamble_reset key VUndefined s Hout) as (Hs & Hrt & Hrr & _).
    split.
    + unfold dispatch. destruct Hkey as [-> | ->]; reflexivity.
    + repeat split; try assumption. apply opt_preamble.
Qed.

(** C8.  The failing input: an effect constructed with 800x600, then
    [effect.width = undefined].  The assignment returns, but the forced
    [setSize] of lines 98-101 has run by the time the guard of line 114
    returns: each pass has received the resize (undefined, 600), so the
    assignment is not a no-op for that axis.  A zero, for which lines 93-121
    have no test, is resized likewise: each pass receives (0, 600). *)
Theorem undefined_width_still_resizes :
  (exists s', setter "width" VUndefined constructed = Ok s'
     /\ resizes (temporalResolvePass s')
        = (VUndefined, num 600) :: resizes (temporalResolvePass constructed)
     /\ resizes (reflectionsPass s')
        = (VUndefined, num 600) :: resizes (reflectionsPass constructed))
  /\ (exists s', setter "width" (num 0) constructed = Ok s'
     /\ resizes (temporalResolvePass s')
        = (num 0, num 600) :: resizes (temporalResolvePass constructed)
     /\ resizes (reflectionsPass s')
        = (num 0, num 600) :: resizes (reflectionsPass constructed))
  /\ ~ no_resize "width" VUndefined constructed
  /\ ~ no_resize "width" (num 0) constructed.
Proof.
  assert (Hu : exists s', setter "width" VUndefined constructed = Ok s'
     /\ resizes (temporalResolvePass s')
        = (VUndefined, num 600) :: resizes (temporalResolvePass constructed)
     /\ resizes (reflectionsPass s')
        = (VUndefined, num 600) :: resizes (reflectionsPass constructed)).
  { eexists. split; [| split]; vm_compute; reflexivity. }
  assert (Hz : exists s', setter "width" (num 0) constructed = Ok s'
     /\ resizes (temporalResolvePass s')
        = (num 0, num 600) :: resizes (temporalResolvePass constructed)
     /\ resizes (reflectionsPass s')
        = (num 0, num 600) :: resizes (reflectionsPass constructed)).
  { eexists. split; [| split]; vm_compute; reflexivity. }
  split; [exact Hu |]. split; [exact Hz |]. split.
  - destruct Hu as (s1 & Hs1 & Hr1 & _). intros (s' & Hs' & Hr & _).
    rewrite Hs1 in Hs'. apply Ok_inj in Hs'. subst s'. rewrite Hr1 in Hr.
    exact (longer_list_differs [] _ _ (eq_sym Hr)).
  - destruct Hz as (s1 & Hs1 & Hr1 & _). intros (s' & Hs' & Hr & _).
    rewrite Hs1 in Hs'. apply Ok_inj in Hs'. subst s'. rewrite Hr1 in Hr.
    exact (longer_list_differs [] _ _ (eq_sym Hr)).
Qed.

(** *** C10 *)

(** C10.  Once [makeOptionsReactive] has set [needsUpdate], assigning to a
    key a value strictly equal to the one the options hold returns at once and
    leaves the whole effect as it was: sample count, sizes, passes, uniforms
    and defines, whether or not the key is in the allow-list. *)
Theorem same_value_returns_at_once {host : Host}
    (key : string) (value : value) (s : t) :
  needsUpdate s = true ->
  strict_eq (opt key s) value = true ->
  setter key value s = Ok s.
Proof.
  intros Hn He. apply setter_unchanged. unfold unchanged. by rewrite Hn, He.
Qed.

Lemma same_value_returns_at_once_witness :
  setter "velocityResolutionScale" (num 1) constructed = Ok constructed.
Proof.
  apply (same_value_returns_at_once "velocityResolutionScale" (num 1) constructed).
  - vm_compute. reflexivity.
  - vm_compute. reflexivity.
Defined.

(** *** The box-projected environment map *)

Example replace_first_only :
  replace "ab" "X" "cabab" = "cXab" /\ replace "zz" "X" "cabab" = "cabab".
Proof. split; reflexivity. Qed.

(** Both methods, when they return, leave the flag as their names say. *)
Lemma generate_sets_flag {utils : Utils} {objects : Objects}
    (envMap position size envMapSize : value) (s s' : t) (v : value) :
  generateBoxProjectedEnvMapFallback envMap position size envMapSize s = Ok (s', v) ->
  usingBoxProjectedEnvMap s' = true /\ v = envMap.
Proof.
  unfold generateBoxProjectedEnvMapFallback.
  destruct (call_copy _ _); [| discriminate]. simpl.
  destruct envMap; try discriminate.
  destruct (copy_into_uniform "envMapPosition" _ _) as [m1 |]; [| discriminate]. simpl.
  destruct (copy_into_uniform "envMapSize" _ _) as [m2 |]; [| discriminate]. simpl.
  intros H. apply Ok_inj in H. injection H as <- <-. auto.
Qed.

Lemma delete_clears (s s' : t) :
  deleteeBoxProjectedEnvMapFallback s = Ok s' ->
  usingBoxProjectedEnvMap s' = false
  /\ mat_uniforms (fullscreenMaterial (reflectionsPass s')) !! "envMap" = Some VNull
  /\ mat_defines (fullscreenMaterial (reflectionsPass s')) !! "BOX_PROJECTED_ENV_MAP" = None
  /\ fragmentShader (fullscreenMaterial (reflectionsPass s'))
     = unpatch_worldPos (fragmentShader (fullscreenMaterial (reflectionsPass s))).
Proof.
  unfold deleteeBoxProjectedEnvMapFallback, write_uniform.
  destruct (_ !! "envMap"); [| discriminate]. simpl.
  intros H. apply Ok_inj in H. subst s'. simpl.
  repeat split.
  - by rewrite lookup_insert_eq.
  - by rewrite lookup_delete_eq.
Qed.

(** The rewriting of line 247 restores the local declaration of [worldPos]
    but not the [varying]: on [a_fragmentShader] the text after patching,
    unpatching and patching again is not the text after patching once. *)
Example patch_unpatch_patch :
  patch_worldPos a_fragmentShader
    = "vec3 worldPos; void main() { worldPos = p; }"
  /\ unpatch_worldPos (patch_worldPos a_fragmentShader)
    = "vec3 worldPos; void main() { vec3 worldPos = p; }"
  /\ patch_worldPos (unpatch_worldPos (patch_worldPos a_fragmentShader))
    = "worldPos; void main() { vec3 worldPos = p; }".
Proof. repeat split; reflexivity. Qed.

End EffectFacts.

(* ===================================================================== *)
(** ** More on the compose shader                                         *)
(* ===================================================================== *)

Module ComposeMore.
Import ComposeReflectionsPass ComposeFacts Colour.

Local Open Scope R_scope.

Lemma mixVal_unit (samples : R) : 1 <= samples -> 0 < mixVal samples < 1.
Proof.
  intros Hs. split; [apply mixVal_pos; lra |].
  apply Rle_lt_trans with (mixVal 1); [| pose proof mixVal_one; lra].
  destruct (Req_dec samples 1) as [-> | Hne]; [lra |].
  left. apply mixVal_decreasing; lra.
Qed.

Lemma mix_between (x y t : R) :
  0 <= t <= 1 -> Rmin x y <= mix x y t <= Rmax x y.
Proof.
  intros Ht. unfold mix, Rmin, Rmax. destruct (Rle_dec x y); nra.
Qed.

Lemma sqrt_lt_iff (x c : R) : 0 <= x -> 0 < c -> (sqrt x < c <-> x < c * c).
Proof.
  intros Hx Hc. rewrite <- (sqrt_square c) at 1 by lra. split.
  - intros H. apply sqrt_lt_0_alt in H. exact H.
  - intros H. apply sqrt_lt_1_alt. lra.
Qed.

Lemma sq_norm_nonneg (v : vec3) : 0 <= r v * r v + g v * g v + b v * b v.
Proof. nra. Qed.

(** X1.  The test of line 58 compares a square root; it holds exactly when
    the sum of the squares of the three components is below 10^-6. *)
Theorem length_threshold (v : vec3) :
  length v < 0.001 <-> r v * r v + g v * g v + b v * b v < 0.000001.
Proof.
  unfold length. rewrite sqrt_lt_iff by (try apply sq_norm_nonneg; lra).
  split; intros H; lra.
Qed.

Lemma component_le_length (v : vec3) :
  Rabs (r v) <= length v /\ Rabs (g v) <= length v /\ Rabs (b v) <= length v.
Proof.
  unfold length.
  repeat split; rewrite <- sqrt_Rsqr_abs; apply sqrt_le_1_alt; unfold Rsqr; nra.
Qed.

Lemma history_unit (lastFrameReflectionsBuffer velocityBuffer : sampler2D) (vUv : vec2) :
  unit3 (rgb (texture2D lastFrameReflectionsBuffer vUv)) ->
  unit3 (rgb (lastFrameReflectionsProjectedTexel lastFrameReflectionsBuffer velocityBuffer vUv)) ->
  unit3 (history lastFrameReflectionsBuffer velocityBuffer vUv).
Proof.
  unfold unit3, history, div3, add3. simpl. intros H1 H2. lra.
Qed.

Lemma edge_unit (uv : vec2) : unit3 (rgb (texture2D edge_history uv)).
Proof.
  unfold texture2D, edge_history, unit3.
  destruct (Rle_dec (vx uv) 0); simpl; lra.
Qed.

Lemma red_unit (uv : vec2) : unit3 (rgb (texture2D all_red uv)).
Proof. unfold texture2D, all_red, unit3. simpl. lra. Qed.

(** X2.  In temporal mode with a sample count of at least 1, if the current
    colour and the two history colours the shader reads have their components
    in [0, 1], so has the colour it writes, in the standard blend as in the
    disocclusion branch. *)
Theorem resolved_colour_in_range
    (inputBuffer lastFrameReflectionsBuffer velocityBuffer : sampler2D)
    (samples : R) (vUv : vec2) :
  1 <= samples ->
  unit3 (rgb (texture2D inputBuffer vUv)) ->
  unit3 (rgb (texture2D lastFrameReflectionsBuffer vUv)) ->
  unit3 (rgb (texture2D lastFrameReflectionsBuffer
                (sub2 vUv (xy (texture2D velocityBuffer vUv))))) ->
  unit3 (rgb (main true inputBuffer lastFrameReflectionsBuffer velocityBuffer samples vUv)).
Proof.
  intros Hs Hc Hp Hq.
  pose proof (history_unit lastFrameReflectionsBuffer velocityBuffer vUv Hp Hq) as Hh.
  pose proof (mixVal_unit samples Hs) as Hw.
  unfold main. set (h := history _ _ _) in *. set (c := rgb (texture2D inputBuffer vUv)) in *.
  clearbody h c. simpl. destruct (Rlt_dec (length h) 0.001) as [Hlen | _].
  - destruct (component_le_length h) as (Hr & Hg & Hb).
    destruct Hh as (Hhr & Hhg & Hhb), Hc as (Hcr & Hcg & Hcb).
    rewrite Rabs_pos_eq in Hr, Hg, Hb by lra.
    unfold unit3, mix3, mix, add3. simpl. lra.
  - destruct Hh as (Hhr & Hhg & Hhb), Hc as (Hcr & Hcg & Hcb).
    unfold unit3, mix3. simpl.
    pose proof (mix_between (r h) (r c) (mixVal samples) ltac:(lra)) as Br.
    pose proof (mix_between (g h) (g c) (mixVal samples) ltac:(lra)) as Bg.
    pose proof (mix_between (b h) (b c) (mixVal samples) ltac:(lra)) as Bb.
    unfold Rmin, Rmax in Br, Bg, Bb.
    destruct (Rle_dec (r h) (r c)), (Rle_dec (g h) (g c)), (Rle_dec (b h) (b c)); lra.
Qed.

Lemma resolved_colour_in_range_witness :
  unit3 (rgb (main true all_red edge_history leftwards 1 origin)).
Proof.
  apply (resolved_colour_in_range all_red edge_history leftwards 1 origin).
  - lra.
  - apply red_unit.
  - apply edge_unit.
  - apply edge_unit.
Defined.

(** X3.  In temporal mode with a sample count of at least 1 the confidence
    written lies strictly between the history confidence read at [vUv] and the
    current confidence plus 0.5 (and equals them when they coincide): it is
    pulled towards [current + 0.5], so that a history confidence of 1 with a
    current confidence above 0.5 gives a confidence above 1. *)
Theorem confidence_drifts
    (inputBuffer lastFrameReflectionsBuffer velocityBuffer : sampler2D)
    (samples : R) (vUv : vec2) :
  1 <= samples ->
  let previous := a (texture2D lastFrameReflectionsBuffer vUv) in
  let target := a (texture2D inputBuffer vUv) + 0.5 in
  let out := a (main true inputBuffer lastFrameReflectionsBuffer velocityBuffer samples vUv) in
  (previous < target -> previous < out < target)
  /\ (target < previous -> target < out < previous)
  /\ (previous = target -> out = previous)
  /\ (previous = 1 -> 0.5 < a (texture2D inputBuffer vUv) -> 1 < out).
Proof.
  intros Hs previous target out.
  pose proof (mixVal_unit samples Hs) as Hw.
  assert (E : out = previous * (1 - mixVal samples) + target * mixVal samples)
    by reflexivity.
  repeat split; intros; subst target; nra.
Qed.

Lemma confidence_drifts_witness :
  1 < a (main true (fun _ => Vec4 (Vec3 0 0 0) 1) (fun _ => Vec4 (Vec3 0 0 0) 1)
           leftwards 4 origin).
Proof.
  pose proof (confidence_drifts (fun _ => Vec4 (Vec3 0 0 0) 1)
                (fun _ => Vec4 (Vec3 0 0 0) 1) leftwards 4 origin ltac:(lra))
    as (_ & _ & _ & H).
  apply H; unfold texture2D; simpl; lra.
Defined.

(** X4.  In the disocclusion branch the colour written is the history colour
    plus a quarter of the current colour, whatever the sample count. *)
Theorem disocclusion_ignores_samples
    (inputBuffer lastFrameReflectionsBuffer velocityBuffer : sampler2D)
    (samples samples' : R) (vUv : vec2) :
  let h := history lastFrameReflectionsBuffer velocityBuffer vUv in
  let c := rgb (texture2D inputBuffer vUv) in
  length h < 0.001 ->
  rgb (main true inputBuffer lastFrameReflectionsBuffer velocityBuffer samples vUv)
  = Vec3 (r h + r c / 4) (g h + g c / 4) (b h + b c / 4)
  /\ rgb (main true inputBuffer lastFrameReflectionsBuffer velocityBuffer samples vUv)
     = rgb (main true inputBuffer lastFrameReflectionsBuffer velocityBuffer samples' vUv).
Proof.
  intros h c Hlen. unfold main. fold h. simpl.
  destruct (Rlt_dec (length h) 0.001); [| contradiction].
  split; [| reflexivity].
  unfold mix3, mix, add3. simpl. fold c. f_equal; lra.
Qed.

Lemma disocclusion_ignores_samples_witness :
  rgb (main true all_red no_reflection leftwards 1 origin)
  = rgb (main true all_red no_reflection leftwards 50 origin).
Proof.
  apply (disocclusion_ignores_samples all_red no_reflection leftwards 1 50 origin).
  unfold history, lastFrameReflectionsProjectedTexel, texture2D, no_reflection, black,
    div3, add3. simpl.
  replace (Vec3 ((0 + 0) / 2) ((0 + 0) / 2) ((0 + 0) / 2)) with (Vec3 0 0 0)
    by (f_equal; lra).
  rewrite length_zero. lra.
Defined.

(** X5.  The fragment written at [vUv] depends on the three buffers only
    through the current texel at [vUv], the velocity texel at [vUv], and the
    history texels at [vUv] and at [vUv - velUv]: frames that agree there give
    the same fragment, in either mode. *)
Theorem main_reads_four_texels (TEMPORAL_RESOLVE : bool)
    (inputBuffer inputBuffer' lastFrameReflectionsBuffer lastFrameReflectionsBuffer'
     velocityBuffer velocityBuffer' : sampler2D) (samples : R) (vUv : vec2) :
  texture2D inputBuffer vUv = texture2D inputBuffer' vUv ->
  texture2D velocityBuffer vUv = texture2D velocityBuffer' vUv ->
  texture2D lastFrameReflectionsBuffer vUv = texture2D lastFrameReflectionsBuffer' vUv ->
  texture2D lastFrameReflectionsBuffer (sub2 vUv (xy (texture2D velocityBuffer vUv)))
  = texture2D lastFrameReflectionsBuffer' (sub2 vUv (xy (texture2D velocityBuffer vUv))) ->
  main TEMPORAL_RESOLVE inputBuffer lastFrameReflectionsBuffer velocityBuffer samples vUv
  = main TEMPORAL_RESOLVE inputBuffer' lastFrameReflectionsBuffer' velocityBuffer' samples vUv.
Proof.
  intros Hi Hv Hl Hp.
  unfold main, history, lastFrameReflectionsProjectedTexel.
  rewrite <- Hi, <- Hv, <- Hl, <- Hp. reflexivity.
Qed.

Lemma main_reads_four_texels_witness :
  main true no_reflection edge_history leftwards 2 origin
  = main true no_reflection
      (fun uv => if Rle_dec (vx uv) 0 then red
                 else if Rle_dec (vx uv) 1 then black else red)
      leftwards 2 origin.
Proof.
  apply (main_reads_four_texels true); try reflexivity;
    unfold texture2D, edge_history, leftwards, origin, xy, sub2; simpl.
  - destruct (Rle_dec 0 0); [reflexivity | exfalso; lra].
  - destruct (Rle_dec (0 - -1) 0); [exfalso; lra |].
    destruct (Rle_dec (0 - -1) 1); [reflexivity | exfalso; lra].
Defined.

(** X6.  Where the last frame has the same colour at [vUv] and at
    [vUv - velUv] (a pixel at rest, a flat region), the mean of lines 47-48 is
    that colour and the shader does what the specification describes: the
    disocclusion rule on a reprojected colour shorter than 0.001, the blend
    [mix(reprojected, current, 1/(samples*EULER))] otherwise. *)
Theorem flat_history_matches_spec
    (inputBuffer lastFrameReflectionsBuffer velocityBuffer : sampler2D)
    (samples : R) (vUv : vec2) :
  1 <= samples ->
  let reprojected :=
    rgb (lastFrameReflectionsProjectedTexel lastFrameReflectionsBuffer velocityBuffer vUv) in
  rgb (texture2D lastFrameReflectionsBuffer vUv) = reprojected ->
  let out := rgb (main true inputBuffer lastFrameReflectionsBuffer velocityBuffer samples vUv) in
  (length reprojected < 0.001 ->
     out = spec_disocclusion inputBuffer lastFrameReflectionsBuffer velocityBuffer vUv)
  /\ (~ length reprojected < 0.001 ->
     out = spec_blend inputBuffer lastFrameReflectionsBuffer velocityBuffer samples vUv).
Proof.
  intros Hs reprojected Hflat out.
  assert (Hh : history lastFrameReflectionsBuffer velocityBuffer vUv = reprojected).
  { unfold history. fold reprojected. rewrite Hflat.
    destruct reprojected as [x y z]. unfold div3, add3. simpl. f_equal; lra. }
  subst out. unfold main. rewrite Hh. simpl.
  unfold spec_disocclusion, spec_blend. fold reprojected.
  rewrite (mixVal_eq samples) by lra.
  split; intros Hlen; destruct (Rlt_dec (length reprojected) 0.001);
    try contradiction; reflexivity.
Qed.

Lemma flat_history_matches_spec_witness :
  rgb (main true no_reflection all_red leftwards 3 origin)
  = spec_blend no_reflection all_red leftwards 3 origin.
Proof.
  pose proof (flat_history_matches_spec no_reflection all_red leftwards 3 origin
                ltac:(lra) eq_refl) as [_ H].
  apply H. unfold lastFrameReflectionsProjectedTexel, texture2D, all_red, red, length.
  simpl. replace (1 * 1 + 0 * 0 + 0 * 0) with (1 * 1) by lra.
  rewrite sqrt_square by lra. lra.
Defined.

End ComposeMore.

(* ===================================================================== *)
(** ** More on the effect                                                 *)
(* ===================================================================== *)

Module EffectMore.
Import JS SSREffect EffectFacts.

(** *** Strict equality *)

Lemma strict_eq_eq (x y : value) : strict_eq x y = true -> x = y.
Proof.
  destruct x, y; simpl; intros H; try discriminate H; try reflexivity;
    by apply bool_decide_eq_true_1 in H.
Qed.

Lemma strict_eq_refl (x : value) : x <> VNaN -> strict_eq x x = true.
Proof.
  destruct x; simpl; intros H; try (by apply bool_decide_eq_true_2); congruence.
Qed.

Lemma strict_eq_NaN_l (y : value) : strict_eq VNaN y = false.
Proof. reflexivity. Qed.

Lemma strict_eq_NaN_r (x : value) : strict_eq x VNaN = false.
Proof. by destruct x. Qed.

(** *** setSize *)

Lemma setSize_lastSize (w h : value) (force : bool) (s : t) :
  let s' := setSize w h force s in
  width (lastSize s') = w /\ height (lastSize s') = h
  /\ resolutionScale (lastSize s') = this_get "resolutionScale" s'
  /\ velocityResolutionScale (lastSize s') = this_get "velocityResolutionScale" s'.
Proof.
  unfold setSize.
  destruct (negb force && _ && _ && _ && _) eqn:E; simpl.
  - apply andb_prop in E as [E E4]. apply andb_prop in E as [E E3].
    apply andb_prop in E as [E E2]. apply andb_prop in E as [_ E1].
    apply strict_eq_eq in E1, E2, E3, E4. auto.
  - auto.
Qed.

Lemma setSize_this_get (w h : value) (force : bool) (s : t) (k : string) :
  this_get k (setSize w h force s) = this_get k s.
Proof.
  unfold this_get, opt.
  destruct (setSize_frame w h force s) as (Ho & _ & _ & Hre & _).
  by rewrite Ho, Hre.
Qed.

Lemma setSize_again (w h : value) (force : bool) (s : t) :
  w <> VNaN -> h <> VNaN ->
  this_get "resolutionScale" s <> VNaN ->
  this_get "velocityResolutionScale" s <> VNaN ->
  setSize w h false (setSize w h force s) = setSize w h force s.
Proof.
  intros Nw Nh Nr Nv.
  destruct (setSize_lastSize w h force s) as (Hw & Hh & Hr & Hv).
  unfold setSize at 1. simpl.
  rewrite Hw, Hh, Hr, Hv, !setSize_this_get, !strict_eq_refl by assumption.
  reflexivity.
Qed.

(** X7.  After [setSize(w, h, force)], whether it resized or returned early,
    [lastSize] holds [w], [h] and the current [resolutionScale] and
    [velocityResolutionScale]; and if none of the four is [NaN], calling
    [setSize(w, h)] again changes nothing. *)
Theorem setSize_records_request (w h : value) (force : bool) (s : t) :
  let s' := setSize w h force s in
  lastSize s' = {| width := w; height := h;
                   resolutionScale := this_get "resolutionScale" s';
                   velocityResolutionScale := this_get "velocityResolutionScale" s' |}
  /\ (w <> VNaN -> h <> VNaN ->
      this_get "resolutionScale" s <> VNaN ->
      this_get "velocityResolutionScale" s <> VNaN ->
      setSize w h false s' = s').
Proof.
  intros s'.
  destruct (setSize_lastSize w h force s) as (Hw & Hh & Hr & Hv). fold s' in Hw, Hh, Hr, Hv.
  split.
  - destruct (lastSize s'). simpl in *. congruence.
  - intros Nw Nh Nr Nv. by apply setSize_again.
Qed.

Lemma setSize_records_request_witness :
  setSize (num 1024) (num 768) false (setSize (num 1024) (num 768) false constructed)
  = setSize (num 1024) (num 768) false constructed.
Proof.
  pose proof (setSize_records_request (num 1024) (num 768) false constructed) as [_ H].
  apply H; vm_compute; discriminate.
Defined.

(** X8.  A [NaN] among the width, the height, [resolutionScale] and
    [velocityResolutionScale] is never deduplicated: [setSize] without
    [force] then resizes both passes on every call. *)
Theorem NaN_is_never_deduplicated (w h : value) (s : t) :
  w = VNaN \/ h = VNaN
  \/ this_get "resolutionScale" s = VNaN
  \/ this_get "velocityResolutionScale" s = VNaN ->
  resizes (temporalResolvePass (setSize w h false s))
  = (w, h) :: resizes (temporalResolvePass s)
  /\ resizes (reflectionsPass (setSize w h false s))
  = (w, h) :: resizes (reflectionsPass s).
Proof.
  intros H. unfold setSize. simpl.
  assert (E : strict_eq w (width (lastSize s)) && strict_eq h (height (lastSize s))
              && strict_eq (this_get "resolutionScale" s) (resolutionScale (lastSize s))
              && strict_eq (this_get "velocityResolutionScale" s)
                           (velocityResolutionScale (lastSize s)) = false).
  { destruct H as [-> | [-> | [-> | ->]]]; rewrite ?strict_eq_NaN_l;
      rewrite ?andb_false_r; reflexivity. }
  rewrite E. simpl. auto.
Qed.

Lemma NaN_is_never_deduplicated_witness :
  resizes (reflectionsPass (setSize VNaN (num 600) false
                              (setSize VNaN (num 600) false constructed)))
  = (VNaN, num 600) :: (VNaN, num 600) :: resizes (reflectionsPass constructed).
Proof.
  destruct (NaN_is_never_deduplicated VNaN (num 600)
              (setSize VNaN (num 600) false constructed)) as [_ H]; [by left |].
  rewrite H.
  destruct (NaN_is_never_deduplicated VNaN (num 600) constructed) as [_ H']; [by left |].
  rewrite H'. reflexivity.
Defined.

(** *** What the switch can touch *)

#[local] Arguments setSize : simpl never.

Lemma switch_inv (key : string) :
  match switch key with
  | case_resolutionScale => key = "resolutionScale"
  | case_velocityResolutionScale => key = "velocityResolutionScale"
  | case_width => key = "width"
  | case_height => key = "height"
  | case_blurMix => key = "blurMix"
  | case_blurSharpness => key = "blurSharpness"
  | case_blurKernelSize => key = "blurKernelSize"
  | case_MAX_STEPS => key = "MAX_STEPS"
  | case_NUM_BINARY_SEARCH_STEPS => key = "NUM_BINARY_SEARCH_STEPS"
  | case_ALLOW_MISSED_RAYS => key = "ALLOW_MISSED_RAYS"
  | case_CLAMP_RADIUS => key = "CLAMP_RADIUS"
  | case_temporalResolveMix => key = "temporalResolveMix"
  | case_temporalResolveCorrection => key = "temporalResolveCorrection"
  | case_colorExponent => key = "colorExponent"
  | case_default => True
  end.
Proof.
  unfold switch.
  repeat match goal with
         | |- context [String.eqb key ?lit] =>
             destruct (String.eqb_spec key lit) as [-> | ?]; [reflexivity |]
         end.
  exact I.
Qed.

Lemma setSize_logs (w h : value) (force : bool) (s : t) :
  exists l, (length l <= 1)%nat
    /\ resizes (temporalResolvePass (setSize w h force s))
       = l ++ resizes (temporalResolvePass s)
    /\ resizes (reflectionsPass (setSize w h force s))
       = l ++ resizes (reflectionsPass s).
Proof.
  unfold setSize. destruct (negb force && _ && _ && _ && _).
  - exists []. simpl. auto.
  - exists [(w, h)]. simpl. auto.
Qed.

Section SetterMore.
Context {host : Host}.

(** After this tactic the goal is about the state that a returning
    [dispatch] built, one goal per way of returning. *)
Ltac dispatch_split key :=
  unfold dispatch, set_uniform, on_reflectionsMaterial, on_temporalResolveMaterial,
    write_uniform, define, undefine;
  pose proof (switch_inv key) as Hinv;
  destruct (switch key) eqn:Hsw; simpl;
  repeat match goal with
         | |- context [match ?m !! ?k with _ => _ end] => destruct (m !! k) eqn:?
         | |- context [if ?c then _ else _] => destruct c eqn:?
         end; simpl; try discriminate;
  let Hok := fresh "Hok" in
  intros Hok; apply Ok_inj in Hok; subst.

Ltac with_setSize_frame :=
  repeat match goal with
         | |- context [setSize ?w ?h ?f ?s0] =>
             let H := fresh "Hframe" in
             pose proof (setSize_frame w h f s0) as H; cbv zeta in H;
             let Hl := fresh "Hlogs" in
             pose proof (setSize_logs w h f s0) as Hl;
             generalize dependent (setSize w h f s0); intros
         end.

(** A returning [dispatch] keeps the options, the effect's [samples], the set of
    accessors, the flag and the shader sources, and sends both passes the
    same resize, or none. *)
Lemma dispatch_frame (key : string) (value : value) (s s' : t) :
  dispatch key value s = Ok s' ->
  options s' = options s /\ samples s' = samples s /\ reactive s' = reactive s
  /\ needsUpdate s' = needsUpdate s
  /\ usingBoxProjectedEnvMap s' = usingBoxProjectedEnvMap s
  /\ (exists l, (length l <= 1)%nat
        /\ resizes (temporalResolvePass s') = l ++ resizes (temporalResolvePass s)
        /\ resizes (reflectionsPass s') = l ++ resizes (reflectionsPass s)).
Proof.
  dispatch_split key; with_setSize_frame; simpl in *;
    repeat match goal with H : _ /\ _ |- _ => destruct H end;
    repeat split; try congruence; try (exists []; simpl; auto; fail);
    match goal with H : exists l, _ |- _ => destruct H as (l & Hl1 & Hl2 & Hl3) end;
    exists l; simpl in *; repeat split; congruence.
Qed.

(** A returning [dispatch] writes an effect uniform only for a key of the
    allow-list, and then only the uniform of that name. *)
Lemma dispatch_uniforms (key : string) (value : value) (s s' : t) :
  dispatch key value s = Ok s' ->
  (key ∉ noResetSamplesProperties -> uniforms s' = uniforms s)
  /\ (forall name, name <> key -> uniforms s' !! name = uniforms s !! name).
Proof.
  dispatch_split key; with_setSize_frame; simpl in *;
    repeat match goal with H : _ /\ _ |- _ => destruct H end;
    split; try congruence;
    try (intros Hout; exfalso; apply Hout; in_list; fail);
    try (intros name Hne; rewrite lookup_insert_ne by congruence; reflexivity);
    intros; congruence.
Qed.

(** A returning [dispatch] writes defines, and the [needsUpdate] flag of a
    material, only for the four keys that are defines. *)
Lemma dispatch_defines (key : string) (value : value) (s s' : t) :
  dispatch key value s = Ok s' ->
  key ∉ defineKeys ->
  forall pass, pass = temporalResolvePass \/ pass = reflectionsPass ->
    mat_defines (fullscreenMaterial (pass s')) = mat_defines (fullscreenMaterial (pass s))
    /\ mat_needsUpdate (fullscreenMaterial (pass s'))
       = mat_needsUpdate (fullscreenMaterial (pass s))
    /\ fragmentShader (fullscreenMaterial (pass s'))
       = fragmentShader (fullscreenMaterial (pass s)).
Proof.
  intros Hd Hout pass Hpass. revert Hd.
  dispatch_split key; with_setSize_frame; simpl in *;
    repeat match goal with H : _ /\ _ |- _ => destruct H end;
    try (exfalso; apply Hout; unfold defineKeys; in_list; fail);
    destruct Hpass as [-> | ->]; simpl; repeat split; congruence.
Qed.

Lemma dispatch_velocity (key : string) (value : value) (s s' : t) :
  dispatch key value s = Ok s' ->
  key <> "velocityResolutionScale" ->
  pass_velocityResolutionScale (temporalResolvePass s')
  = pass_velocityResolutionScale (temporalResolvePass s).
Proof.
  intros Hd Hne. revert Hd.
  dispatch_split key; with_setSize_frame; simpl in *;
    repeat match goal with H : _ /\ _ |- _ => destruct H end;
    congruence.
Qed.

Lemma preamble_logs (key : string) (value : value) (s : t) :
  let p := preamble key value s in
  reactive p = reactive s
  /\ usingBoxProjectedEnvMap p = usingBoxProjectedEnvMap s
  /\ pass_velocityResolutionScale (temporalResolvePass p)
     = pass_velocityResolutionScale (temporalResolvePass s)
  /\ (exists l, (length l <= 1)%nat
        /\ resizes (temporalResolvePass p) = l ++ resizes (temporalResolvePass s)
        /\ resizes (reflectionsPass p) = l ++ resizes (reflectionsPass s)).
Proof.
  unfold preamble. destruct (bool_decide _).
  - simpl. repeat split. exists []. simpl. auto.
  - rewrite setSize_forced. simpl. repeat split. eexists [_]. simpl. auto.
Qed.

(** The options after an assignment that returns. *)
Lemma setter_options (key : string) (value : value) (s s' : t) :
  setter key value s = Ok s' ->
  forall k, opt k s' = if decide (k = key) then value else opt k s.
Proof.
  intros H k. destruct (unchanged key value s) eqn:Hguard.
  - rewrite setter_unchanged in H by exact Hguard. apply Ok_inj in H. subst s'.
    case_decide as Hk; [| reflexivity]. subst k.
    unfold unchanged in Hguard. apply andb_prop in Hguard as [He _].
    by apply strict_eq_eq.
  - rewrite setter_changed in H by exact Hguard.
    apply dispatch_frame in H as (Ho & _).
    destruct (preamble_frame key value s) as (Hp & _).
    unfold opt. rewrite Ho, Hp.
    case_decide as Hk.
    + subst k. by rewrite lookup_insert_eq.
    + by rewrite lookup_insert_ne.
Qed.

(** X9.  An assignment that returns leaves the assigned value in the option
    of that key and every other option as it was, and defines no new
    accessor.  Once construction is over, assigning the same value again,
    [NaN] excepted, returns the effect unchanged. *)
Theorem assignment_round_trip (key : string) (value : value) (s s' : t) :
  setter key value s = Ok s' ->
  opt key s' = value
  /\ (forall k, k <> key -> opt k s' = opt k s)
  /\ reactive s' = reactive s
  /\ (needsUpdate s = true -> value <> VNaN -> setter key value s' = Ok s').
Proof.
  intros H. pose proof (setter_options key value s s' H) as Ho.
  split; [| split; [| split]].
  - specialize (Ho key). by rewrite decide_True in Ho.
  - intros k Hk. specialize (Ho k). by rewrite decide_False in Ho.
  - destruct (unchanged key value s) eqn:Hguard.
    + rewrite setter_unchanged in H by exact Hguard. apply Ok_inj in H. by subst s'.
    + rewrite setter_changed in H by exact Hguard.
      apply dispatch_frame in H as (_ & _ & Hr & _).
      destruct (preamble_logs key value s) as (Hr' & _). congruence.
  - intros Hn Hv. apply setter_unchanged. unfold unchanged.
    specialize (Ho key). rewrite decide_True in Ho by reflexivity.
    rewrite Ho, strict_eq_refl by exact Hv.
    destruct (setter_same_shape key value s s' H) as (Hn' & _). by rewrite Hn', Hn.
Qed.


(** X11.  An assignment that returns stays within the part of the effect
    that belongs to its key: a key outside the allow-list writes no uniform of
    the effect; a key that is not one of the four defines changes no define,
    no [needsUpdate] flag and no shader source of either pass; a key other
    than [velocityResolutionScale] leaves that member of the temporal resolve
    pass alone; and no key changes the box-projection flag. *)
Theorem setter_stays_in_its_lane (key : string) (value : value) (s s' : t) :
  setter key value s = Ok s' ->
  (key ∉ noResetSamplesProperties -> uniforms s' = uniforms s)
  /\ (forall name, name <> key -> uniforms s' !! name = uniforms s !! name)
  /\ (key ∉ defineKeys ->
      forall pass, pass = temporalResolvePass \/ pass = reflectionsPass ->
        mat_defines (fullscreenMaterial (pass s')) = mat_defines (fullscreenMaterial (pass s))
        /\ mat_needsUpdate (fullscreenMaterial (pass s'))
           = mat_needsUpdate (fullscreenMaterial (pass s))
        /\ fragmentShader (fullscreenMaterial (pass s'))
           = fragmentShader (fullscreenMaterial (pass s)))
  /\ (key <> "velocityResolutionScale" ->
      pass_velocityResolutionScale (temporalResolvePass s')
      = pass_velocityResolutionScale (temporalResolvePass s))
  /\ usingBoxProjectedEnvMap s' = usingBoxProjectedEnvMap s.
Proof.
  intros H. destruct (unchanged key value s) eqn:Hguard.
  - rewrite setter_unchanged in H by exact Hguard. apply Ok_inj in H. subst s'.
    repeat split; auto.
  - rewrite setter_changed in H by exact Hguard.
    destruct (preamble_frame key value s) as (_ & _ & _ & Hu & Ht & Hr).
    destruct (preamble_logs key value s) as (_ & Hb & Hv & _).
    destruct (dispatch_uniforms _ _ _ _ H) as (U1 & U2).
    pose proof (dispatch_defines _ _ _ _ H) as D.
    pose proof (dispatch_velocity _ _ _ _ H) as V.
    destruct (dispatch_frame _ _ _ _ H) as (_ & _ & _ & _ & B & _).
    split; [| split; [| split; [| split]]].
    + intros Hout. rewrite U1 by exact Hout. exact Hu.
    + intros name Hne. rewrite U2 by exact Hne. by rewrite Hu.
    + intros Hout pass [-> | ->].
      * destruct (D Hout temporalResolvePass (or_introl eq_refl)) as (D1 & D2 & D3).
        rewrite D1, D2, D3, Ht. auto.
      * destruct (D Hout reflectionsPass (or_intror eq_refl)) as (D1 & D2 & D3).
        rewrite D1, D2, D3, Hr. auto.
    + intros Hne. rewrite V by exact Hne. exact Hv.
    + congruence.
Qed.

(** What an assignment to a key of the allow-list returns. *)
Lemma setter_allow_listed (key : string) (value : value) (s : t) :
  key ∈ noResetSamplesProperties ->
  is_Some (uniforms s !! key) ->
  setter key value s
  = Ok (if unchanged key value s then s
        else with_uniforms (<[key := value]> (uniforms s))
               (with_options (<[key := value]> (options s)) s)).
Proof.
  intros Hin [v Hv]. destruct (unchanged key value s) eqn:Hguard.
  - by apply setter_unchanged.
  - rewrite setter_changed, preamble_allow_listed by assumption.
    unfold dispatch, set_uniform.
    destruct (switch_allow_listed key Hin) as [[-> ->] | [[-> ->] | [-> ->]]];
      simpl; by rewrite Hv.
Qed.

(** X12.  Assignments to two different keys of the allow-list commute:
    either order gives the same effect. *)
Theorem allow_listed_assignments_commute
    (k1 k2 : string) (v1 v2 : value) (s : t) :
  k1 ∈ noResetSamplesProperties -> k2 ∈ noResetSamplesProperties -> k1 <> k2 ->
  is_Some (uniforms s !! k1) -> is_Some (uniforms s !! k2) ->
  bind (setter k1 v1 s) (setter k2 v2) = bind (setter k2 v2 s) (setter k1 v1).
Proof.
  intros H1 H2 Hne U1 U2.
  assert (Hkeep : forall ka kb va vb, ka <> kb ->
            unchanged kb vb
              (with_uniforms (<[ka := va]> (uniforms s))
                 (with_options (<[ka := va]> (options s)) s))
            = unchanged kb vb s).
  { intros ka kb va vb Hab. unfold unchanged, opt. simpl.
    by rewrite lookup_insert_ne. }
  assert (Hsome : forall ka kb va, ka <> kb -> is_Some (uniforms s !! kb) ->
            is_Some (<[ka := va]> (uniforms s) !! kb)).
  { intros ka kb va Hab Hs. by rewrite lookup_insert_ne. }
  rewrite (setter_allow_listed k1 v1 s H1 U1), (setter_allow_listed k2 v2 s H2 U2).
  simpl.
  destruct (unchanged k1 v1 s) eqn:G1, (unchanged k2 v2 s) eqn:G2;
    rewrite !setter_allow_listed by (simpl; auto);
    rewrite ?Hkeep, ?G1, ?G2 by congruence; try reflexivity.
  simpl. f_equal. unfold with_uniforms, with_options. simpl.
  rewrite (insert_insert_ne (options s) k1 k2) by exact Hne.
  rewrite (insert_insert_ne (uniforms s) k1 k2) by exact Hne.
  reflexivity.
Qed.

(** X13.  An assignment that returns has sent the two passes the same
    resizes, at most two, on top of those they had received. *)
Theorem passes_are_resized_together (key : string) (value : value) (s s' : t) :
  setter key value s = Ok s' ->
  exists l, (length l <= 2)%nat
    /\ resizes (temporalResolvePass s') = l ++ resizes (temporalResolvePass s)
    /\ resizes (reflectionsPass s') = l ++ resizes (reflectionsPass s).
Proof.
  intros H. destruct (unchanged key value s) eqn:Hguard.
  - rewrite setter_unchanged in H by exact Hguard. apply Ok_inj in H. subst s'.
    exists []. simpl. auto with arith.
  - rewrite setter_changed in H by exact Hguard.
    destruct (preamble_logs key value s) as (_ & _ & _ & l1 & L1 & T1 & R1).
    destruct (dispatch_frame _ _ _ _ H) as (_ & _ & _ & _ & _ & l2 & L2 & T2 & R2).
    exists (l2 ++ l1). rewrite length_app, T2, R2, T1, R1, <- !app_assoc.
    repeat split. lia.
Qed.

(** X14.  An assignment to [velocityResolutionScale] that is not skipped
    stores the value in the temporal resolve pass and resizes each pass twice
    to the configured size: once in the preamble, once more, forced again, in
    its case. *)
Theorem velocityResolutionScale_resizes_twice (value : value) (s : t) :
  unchanged "velocityResolutionScale" value s = false ->
  exists s', setter "velocityResolutionScale" value s = Ok s'
    /\ pass_velocityResolutionScale (temporalResolvePass s') = value
    /\ resizes (temporalResolvePass s')
       = (opt "width" s, opt "height" s) :: (opt "width" s, opt "height" s)
         :: resizes (temporalResolvePass s)
    /\ resizes (reflectionsPass s')
       = (opt "width" s, opt "height" s) :: (opt "width" s, opt "height" s)
         :: resizes (reflectionsPass s).
Proof.
  intros Hguard. rewrite setter_changed by exact Hguard.
  unfold dispatch, preamble. simpl.
  rewrite !setSize_forced. eexists. split; [reflexivity |].
  unfold opt. simpl. rewrite !lookup_insert_ne by discriminate. auto.
Qed.

(** X15.  An assignment to [resolutionScale] that is not skipped resizes
    each pass exactly once although [setSize] is called twice: with no [NaN]
    among the configured width and height, the value and
    [velocityResolutionScale], the call in its case finds [lastSize] just
    recorded by the forced call of the preamble and returns early. *)
Theorem resolutionScale_resizes_once (value : value) (s : t) :
  unchanged "resolutionScale" value s = false ->
  opt "width" s <> VNaN -> opt "height" s <> VNaN -> value <> VNaN ->
  this_get "velocityResolutionScale" s <> VNaN ->
  setter "resolutionScale" value s = Ok (preamble "resolutionScale" value s)
  /\ resizes (temporalResolvePass (preamble "resolutionScale" value s))
     = (opt "width" s, opt "height" s) :: resizes (temporalResolvePass s)
  /\ resizes (reflectionsPass (preamble "resolutionScale" value s))
     = (opt "width" s, opt "height" s) :: resizes (reflectionsPass s).
Proof.
  intros Hguard Nw Nh Nv Nvrs. rewrite setter_changed by exact Hguard.
  unfold dispatch, preamble. simpl.
  set (s1 := with_options (<["resolutionScale" := value]> (options s)) s).
  set (s0 := with_samples (num 0) s1).
  assert (Ew : opt "width" s1 = opt "width" s)
    by (unfold opt; simpl; by rewrite lookup_insert_ne).
  assert (Eh : opt "height" s1 = opt "height" s)
    by (unfold opt; simpl; by rewrite lookup_insert_ne).
  assert (Eo : forall k w h, opt k (setSize w h true s0) = opt k s1).
  { intros k w h. pose proof (setSize_frame w h true s0) as Hf.
    cbv zeta in Hf. destruct Hf as (Ho & _). unfold opt. by rewrite Ho. }
  rewrite !Eo, !Ew, !Eh.
  split; [| auto].
  f_equal. apply setSize_again; try assumption.
  - unfold this_get, opt. subst s0 s1. simpl.
    case_bool_decide; [| discriminate]. by rewrite lookup_insert_eq.
  - unfold this_get, opt in *. subst s0 s1. simpl.
    rewrite lookup_insert_ne by discriminate. exact Nvrs.
Qed.

(** *** Installing the options *)

Lemma setter_blur_uniform (key : string) (value : value) (s s' : t) :
  key ∈ noResetSamplesProperties ->
  unchanged key value s = false ->
  setter key value s = Ok s' ->
  uniforms s' !! key = Some value.
Proof.
  intros Hin Hguard. rewrite setter_changed, preamble_allow_listed by assumption.
  unfold dispatch, set_uniform.
  destruct (switch_allow_listed key Hin) as [[-> ->] | [[-> ->] | [-> ->]]]; simpl;
    (destruct (uniforms s !! _); [| discriminate]);
    intros H; apply Ok_inj in H; subst s'; simpl; by rewrite lookup_insert_eq.
Qed.

Lemma setter_frame (key : string) (value : value) (s s' : t) :
  setter key value s = Ok s' ->
  unchanged key value s = false ->
  options s' = <[key := value]> (options s)
  /\ reactive s' = reactive s
  /\ needsUpdate s' = needsUpdate s
  /\ (forall name, name <> key -> uniforms s' !! name = uniforms s !! name).
Proof.
  intros H Hguard. rewrite setter_changed in H by exact Hguard.
  destruct (preamble_frame key value s) as (Ho & Hn & _ & Hu & _).
  destruct (preamble_logs key value s) as (Hr & _).
  destruct (dispatch_frame _ _ _ _ H) as (Ho' & _ & Hr' & Hn' & _).
  destruct (dispatch_uniforms _ _ _ _ H) as (_ & U).
  repeat split; try congruence.
  intros name Hne. rewrite U by exact Hne. by rewrite Hu.
Qed.

Lemma defineProperties_installs (keys : list string) (s s' : t) :
  defineProperties keys s = Ok s' ->
  needsUpdate s = false ->
  (forall k, k ∈ keys -> is_Some (options s !! k)) ->
  options s' = options s
  /\ needsUpdate s' = false
  /\ reactive s' = list_to_set keys ∪ reactive s
  /\ (forall name, name ∉ keys -> uniforms s' !! name = uniforms s !! name)
  /\ (NoDup keys -> forall key, key ∈ keys -> key ∈ noResetSamplesProperties ->
        uniforms s' !! key = Some (opt key s)).
Proof.
  revert s. induction keys as [| key keys IH]; intros s H Hn Hdom; simpl in H.
  - apply Ok_inj in H. subst s'.
    split; [reflexivity |]. split; [exact Hn |]. split; [| split].
    + simpl. by rewrite union_empty_l_L.
    + reflexivity.
    + intros _ key Hin. by apply elem_of_nil in Hin.
  - case_bool_decide as Hnew; [discriminate |].
    set (s1 := with_reactive ({[key]} ∪ reactive s) s) in *.
    destruct (setter key (opt key s1) s1) as [s2 |] eqn:E; [| discriminate].
    simpl in H.
    assert (Hguard : unchanged key (opt key s1) s1 = false).
    { unfold unchanged. simpl. rewrite Hn. apply andb_false_r. }
    destruct (setter_frame _ _ _ _ E Hguard) as (Ho & Hr & Hn2 & Hu).
    assert (Ho2 : options s2 = options s).
    { rewrite Ho. simpl. destruct (Hdom key) as [v Hv]; [apply list_elem_of_here |].
      unfold opt. simpl. rewrite Hv. simpl. by apply insert_id. }
    destruct (IH s2 H) as (Io & In & Ir & Iu & Ib).
    { rewrite Hn2. exact Hn. }
    { intros k Hk. rewrite Ho2. apply Hdom. by apply list_elem_of_further. }
    assert (Hopt : forall k, opt k s2 = opt k s) by (intros k; unfold opt; by rewrite Ho2).
    split; [congruence |]. split; [exact In |]. split; [| split].
    + rewrite Ir, Hr. simpl.
      rewrite (assoc_L (∪)). f_equal. apply (comm_L (∪)).
    + intros name Hout. apply not_elem_of_cons in Hout as [Hne Hout].
      rewrite Iu by exact Hout. by apply Hu.
    + intros Hnd k Hk Hallow.
      inversion Hnd as [| ? ? Hfresh Hnd']; subst. clear Hnd. rename Hnd' into Hnd.
      apply elem_of_cons in Hk as [-> | Hk].
      * rewrite Iu by exact Hfresh.
        apply (setter_blur_uniform _ _ _ _ Hallow Hguard E).
      * rewrite <- Hopt. by apply Ib.
Qed.

(** X16.  On an instance that has no accessor yet (as in the constructor,
    the only caller) and for an options object, whose keys are distinct: when
    [makeOptionsReactive] returns, the options are those it was given, the
    accessors are exactly those of its keys and each reads back its value,
    [needsUpdate] is set, the list of line 86 holds the uniform names of the
    reflections pass, and each blur uniform mirrors the option of its name. *)
Theorem makeOptionsReactive_installs (opts : list (string * value)) (s s' : t) :
  reactive s = ∅ ->
  NoDup opts.*1 ->
  makeOptionsReactive opts s = Ok s' ->
  options s' = list_to_map opts
  /\ needsUpdate s' = true
  /\ reactive s' = list_to_set opts.*1
  /\ reflectionPassFullscreenMaterialUniformsKeys s'
     = dom (mat_uniforms (fullscreenMaterial (reflectionsPass s)))
  /\ (forall key v, (key, v) ∈ opts ->
        opt key s' = v /\ this_get key s' = v
        /\ (key ∈ noResetSamplesProperties -> uniforms s' !! key = Some v)).
Proof.
  unfold makeOptionsReactive. intros Hfresh Hnd H.
  destruct (defineProperties _ _) as [s1 |] eqn:E; [| discriminate].
  simpl in H. apply Ok_inj in H. subst s'.
  pose proof (defineProperties_same_shape _ _ _ E) as (_ & Hk & _).
  apply defineProperties_installs in E as (Ho & _ & Hr & _ & Hb); [| reflexivity |].
  - simpl in Ho, Hr, Hk, Hb. rewrite Hfresh, (right_id_L ∅ (∪)) in Hr.
    split; [exact Ho |]. split; [reflexivity |]. split; [exact Hr |].
    split; [exact Hk |].
    intros key v Hin.
    assert (Hv : (list_to_map opts : gmap string value) !! key = Some v)
      by (by apply elem_of_list_to_map_1).
    assert (Hopt : opt key (with_needsUpdate true s1) = v)
      by (unfold opt; simpl; by rewrite Ho, Hv).
    split; [exact Hopt |]. split.
    + unfold this_get. simpl. rewrite bool_decide_eq_true_2; [exact Hopt |].
      rewrite Hr. apply elem_of_list_to_set.
      apply list_elem_of_fmap. by exists (key, v).
    + intros Hallow. simpl. rewrite (Hb Hnd key).
      * unfold opt. simpl. by rewrite Hv.
      * apply list_elem_of_fmap. by exists (key, v).
      * exact Hallow.
  - intros k Hin. simpl. apply elem_of_dom. rewrite dom_list_to_map_L.
    by apply elem_of_list_to_set.
Qed.

(** *** Merging the options *)

Lemma assign_entry_map (k : string) (v : value) (o : list (string * value)) :
  (list_to_map (assign_entry k v o) : gmap string value) = <[k := v]> (list_to_map o).
Proof.
  induction o as [| [k' v'] o IH]; simpl; [reflexivity |].
  destruct (String.eqb_spec k k') as [-> | Hne]; simpl.
  - by rewrite insert_insert_eq.
  - rewrite IH. by apply insert_insert_ne.
Qed.

Lemma assign_entry_keys (k : string) (v : value) (o : list (string * value)) :
  (assign_entry k v o).*1 = if bool_decide (k ∈ o.*1) then o.*1 else o.*1 ++ [k].
Proof.
  induction o as [| [k' v'] o IH]; csimpl; [reflexivity |].
  destruct (String.eqb_spec k k') as [-> | Hne]; csimpl.
  - rewrite bool_decide_eq_true_2 by apply list_elem_of_here. reflexivity.
  - rewrite IH. case_bool_decide as Hin.
    + rewrite bool_decide_eq_true_2 by (by apply list_elem_of_further). reflexivity.
    + rewrite bool_decide_eq_false_2; [reflexivity |].
      rewrite elem_of_cons. intros [? | ?]; contradiction.
Qed.

Lemma assign_entry_NoDup (k : string) (v : value) (o : list (string * value)) :
  NoDup o.*1 -> NoDup (assign_entry k v o).*1.
Proof.
  intros Hnd. rewrite assign_entry_keys. case_bool_decide as Hin; [exact Hnd |].
  apply list.NoDup_app. split; [exact Hnd |]. split.
  - intros x Hx Hk. apply list_elem_of_singleton in Hk. by subst.
  - apply NoDup_singleton.
Qed.

(** The map of a spread: the entries of [ext] laid over those of [o]. *)
Lemma spread_map (o ext : list (string * value)) :
  NoDup ext.*1 ->
  (list_to_map (spread o ext) : gmap string value) = list_to_map ext ∪ list_to_map o.
Proof.
  revert o. induction ext as [| [k v] ext IH]; intros o Hnd; simpl.
  - by rewrite (left_id_L ∅ (∪)).
  - inversion Hnd as [| ? ? Hfresh Hnd']; subst.
    unfold spread in *. simpl. rewrite IH by exact Hnd'. rewrite assign_entry_map.
    rewrite <- insert_union_r by (by apply not_elem_of_list_to_map_1).
    by rewrite insert_union_l.
Qed.

Lemma spread_NoDup (o ext : list (string * value)) :
  NoDup o.*1 -> NoDup (spread o ext).*1.
Proof.
  revert o. induction ext as [| [k v] ext IH]; intros o Hnd; [exact Hnd |].
  unfold spread in *. simpl. apply IH. by apply assign_entry_NoDup.
Qed.

(** X17.  An effect that the constructor returns, for options objects
    without duplicate keys, holds the defaults overlaid with the caller's
    options overlaid with [BOX_BLUR: true, DILATION: true]: the caller's value
    wins over a default, and neither can set the last two.  Every key of the
    merged options has its accessor, and [needsUpdate] is set. *)
Theorem constructor_merges_options
    (defaultSSROptions options : list (string * value))
    (trp rp : Pass) (texture : value) (s : t) :
  constructor defaultSSROptions options trp rp texture = Ok s ->
  NoDup defaultSSROptions.*1 -> NoDup options.*1 ->
  SSREffect.options s
  = list_to_map trOptions ∪ (list_to_map options ∪ list_to_map defaultSSROptions)
  /\ opt "BOX_BLUR" s = VBool true /\ opt "DILATION" s = VBool true
  /\ reactive s = dom (SSREffect.options s)
  /\ needsUpdate s = true.
Proof.
  unfold constructor. intros H Hd Ho.
  set (merged := spread (spread (spread [] defaultSSROptions) options) trOptions) in *.
  assert (Hnd : NoDup merged.*1) by (apply spread_NoDup, spread_NoDup, spread_NoDup; constructor).
  assert (Hmap : (list_to_map merged : gmap string value)
                 = list_to_map trOptions ∪ (list_to_map options ∪ list_to_map defaultSSROptions)).
  { unfold merged. rewrite !spread_map; try assumption.
    - simpl. by rewrite (right_id_L ∅ (∪)).
    - simpl. repeat constructor; rewrite ?elem_of_cons, ?elem_of_nil;
        intros Hin; repeat destruct Hin as [Hin | Hin]; try discriminate Hin; exact Hin. }
  revert H. unfold makeOptionsReactive.
  destruct (defineProperties _ _) as [s1 |] eqn:E; [| discriminate]. simpl.
  intros H. apply Ok_inj in H. subst s.
  apply defineProperties_installs in E as (Eo & _ & Er & _); [| reflexivity |].
  - simpl in Eo, Er. simpl.
    assert (Hopt : SSREffect.options s1 = list_to_map merged) by exact Eo.
    split; [by rewrite Hopt, Hmap |].
    unfold opt. simpl. rewrite Hopt, Hmap.
    split; [by erewrite lookup_union_Some_l by reflexivity |].
    split; [by erewrite lookup_union_Some_l by reflexivity |].
    split; [| reflexivity].
    rewrite Er, <- Hmap, dom_list_to_map_L.
    match goal with |- _ ∪ reactive (setSize ?w ?h ?f ?s0) = _ =>
      destruct (setSize_frame w h f s0) as (_ & _ & _ & -> & _) end.
    simpl. by rewrite (right_id_L ∅ (∪)).
  - intros k Hin. simpl. apply elem_of_dom. rewrite dom_list_to_map_L.
    by apply elem_of_list_to_set.
Qed.

(** X24.  The accessors forward a key without a case to the reflections
    pass only if a uniform of that name was listed when [makeOptionsReactive]
    ran (line 86): an assignment that returns has written the uniform of a
    listed key and has left the uniforms of the pass untouched for any other
    key, even one for which a uniform has been added since. *)
Theorem uniform_names_are_a_snapshot (key : string) (value : value) (s s' : t) :
  switch key = case_default ->
  unchanged key value s = false ->
  setter key value s = Ok s' ->
  mat_uniforms (fullscreenMaterial (reflectionsPass s'))
  = if bool_decide (key ∈ reflectionPassFullscreenMaterialUniformsKeys s)
    then <[key := value]> (mat_uniforms (fullscreenMaterial (reflectionsPass s)))
    else mat_uniforms (fullscreenMaterial (reflectionsPass s)).
Proof.
  intros Hsw Hguard. rewrite setter_changed by exact Hguard.
  destruct (preamble_frame key value s) as (_ & _ & Hk & _ & _ & Hr).
  unfold dispatch, on_reflectionsMaterial, write_uniform. rewrite Hsw, Hk, Hr.
  case_bool_decide as Hin.
  - destruct (mat_uniforms (fullscreenMaterial (reflectionsPass s)) !! key);
      [| discriminate].
    simpl. intros H. apply Ok_inj in H. by subst s'.
  - intros H. apply Ok_inj in H. subst s'. by rewrite Hr.
Qed.

(** X25.  The width scaled by the device pixel ratio does not survive the
    next assignment: after [width] has been assigned a defined value whose
    product with the pixel ratio is another value, the passes are at the
    scaled width; any later assignment outside the allow-list that is not
    skipped then forces a resize to the unscaled [options.width]. *)
Theorem scaled_width_is_lost (key : string) (v v' : value) (s s1 s2 : t) :
  v <> VUndefined ->
  strict_eq (times v devicePixelRatio) v = false ->
  unchanged "width" v s = false ->
  setter "width" v s = Ok s1 ->
  key ∉ noResetSamplesProperties ->
  unchanged key v' s1 = false ->
  setter key v' s1 = Ok s2 ->
  hd_error (resizes (temporalResolvePass s1))
  = Some (times v devicePixelRatio, opt "height" s1)
  /\ (key <> "width" -> key <> "height" ->
      exists l, resizes (temporalResolvePass s2)
                = l ++ (v, opt "height" s1) :: resizes (temporalResolvePass s1)).
Proof.
  intros Hdef Hscaled G1 H1 Hout G2 H2.
  split.
  - rewrite setter_changed in H1 by exact G1.
    assert (Hw : "width" ∉ noResetSamplesProperties).
    { intros Hin. apply list_elem_of_In in Hin. simpl in Hin.
      destruct Hin as [H | [H | [H | []]]]; discriminate H. }
    destruct (preamble_reset "width" v s Hw) as (_ & _ & _ & Lw & _).
    pose proof (opt_preamble "width" v s) as Ow.
    remember (preamble "width" v s) as p eqn:Ep. clear Ep.
    unfold dispatch in H1. simpl in H1.
    destruct (strict_eq v VUndefined) eqn:Eu.
    { apply strict_eq_eq in Eu. contradiction. }
    apply Ok_inj in H1. subst s1.
    pose proof (setSize_frame (times v devicePixelRatio) (opt "height" p) false p) as Hf.
    cbv zeta in Hf. destruct Hf as (Ho & _).
    assert (Oh : opt "height"
                   (setSize (times v devicePixelRatio) (opt "height" p) false p)
                 = opt "height" p) by (unfold opt at 1; by rewrite Ho).
    rewrite Oh. unfold setSize. simpl. rewrite Lw, Ow, Hscaled. reflexivity.
  - intros Nw Nh. rewrite setter_changed in H2 by exact G2.
    destruct (preamble_reset key v' s1 Hout) as (_ & Lt & _).
    destruct (preamble_frame key v' s1) as (Ho & _).
    destruct (dispatch_frame _ _ _ _ H2) as (_ & _ & _ & _ & _ & l & _ & T & _).
    exists l. rewrite T, Lt. f_equal. f_equal.
    pose proof (setter_options "width" v s s1 H1 "width") as Ow1.
    rewrite decide_True in Ow1 by reflexivity.
    unfold opt in *. rewrite Ho, !lookup_insert_ne by congruence.
    by rewrite Ow1.
Qed.

End SetterMore.

(** *** On the concrete effect *)

Lemma assignment_round_trip_witness :
  exists s', setter "MAX_STEPS" (num 64) constructed = Ok s'
    /\ opt "MAX_STEPS" s' = num 64
    /\ setter "MAX_STEPS" (num 64) s' = Ok s'.
Proof.
  destruct (setter "MAX_STEPS" (num 64) constructed) as [s' |] eqn:E;
    [| exfalso; revert E; vm_compute; discriminate].
  destruct (assignment_round_trip "MAX_STEPS" (num 64) constructed s' E)
    as (H1 & _ & _ & H4).
  exists s'. repeat split; [exact H1 |].
  apply H4; [exact constructed_needsUpdate | discriminate].
Defined.

Lemma setter_stays_in_its_lane_witness :
  exists s', setter "colorExponent" (num 2) constructed = Ok s'
    /\ uniforms s' = uniforms constructed
    /\ mat_defines (fullscreenMaterial (reflectionsPass s'))
       = mat_defines (fullscreenMaterial (reflectionsPass constructed)).
Proof.
  destruct (setter "colorExponent" (num 2) constructed) as [s' |] eqn:E;
    [| exfalso; revert E; vm_compute; discriminate].
  destruct (setter_stays_in_its_lane "colorExponent" (num 2) constructed s' E)
    as (H1 & _ & H3 & _).
  exists s'. split; [reflexivity |]. split.
  - apply H1. intros Hin. apply list_elem_of_In in Hin. simpl in Hin.
    destruct Hin as [H | [H | [H | []]]]; discriminate H.
  - apply H3; [| by right]. intros Hin. apply list_elem_of_In in Hin. simpl in Hin.
    destruct Hin as [H | [H | [H | [H | []]]]]; discriminate H.
Defined.

Lemma allow_listed_assignments_commute_witness :
  bind (setter "blurMix" (num 1) constructed) (setter "blurSharpness" (num 9))
  = bind (setter "blurSharpness" (num 9) constructed) (setter "blurMix" (num 1)).
Proof.
  apply (allow_listed_assignments_commute "blurMix" "blurSharpness").
  - in_list.
  - in_list.
  - discriminate.
  - vm_compute. eauto.
  - vm_compute. eauto.
Defined.

Lemma passes_are_resized_together_witness :
  exists s' l, setter "height" (num 720) constructed = Ok s'
    /\ resizes (temporalResolvePass s') = l ++ resizes (temporalResolvePass constructed)
    /\ resizes (reflectionsPass s') = l ++ resizes (reflectionsPass constructed).
Proof.
  destruct (setter "height" (num 720) constructed) as [s' |] eqn:E;
    [| exfalso; revert E; vm_compute; discriminate].
  destruct (passes_are_resized_together "height" (num 720) constructed s' E)
    as (l & _ & Ht & Hr).
  exists s', l. auto.
Defined.

Lemma velocityResolutionScale_resizes_twice_witness :
  exists s', setter "velocityResolutionScale" (num 0.5) constructed = Ok s'
    /\ resizes (reflectionsPass s')
       = (opt "width" constructed, opt "height" constructed)
         :: (opt "width" constructed, opt "height" constructed)
         :: resizes (reflectionsPass constructed).
Proof.
  destruct (velocityResolutionScale_resizes_twice (num 0.5) constructed)
    as (s' & Hs' & _ & _ & Hr).
  - vm_compute. reflexivity.
  - exists s'. auto.
Defined.

Lemma resolutionScale_resizes_once_witness :
  setter "resolutionScale" (num 0.5) constructed
  = Ok (preamble "resolutionScale" (num 0.5) constructed).
Proof.
  pose proof (resolutionScale_resizes_once (num 0.5) constructed) as H.
  destruct H as (H & _).
  - vm_compute. reflexivity.
  - vm_compute. discriminate.
  - vm_compute. discriminate.
  - discriminate.
  - vm_compute. discriminate.
  - exact H.
Defined.

Lemma makeOptionsReactive_installs_witness :
  makeOptionsReactive merged_options before_makeOptionsReactive = Ok constructed
  /\ reactive constructed = list_to_set merged_options.*1
  /\ this_get "MAX_STEPS" constructed = num 20
  /\ uniforms constructed !! "blurMix" = Some (num 0.5).
Proof.
  assert (E : makeOptionsReactive merged_options before_makeOptionsReactive = Ok constructed)
    by (vm_compute; reflexivity).
  assert (Hfresh : reactive before_makeOptionsReactive = ∅) by reflexivity.
  assert (Hnd : NoDup merged_options.*1)
    by (apply (bool_decide_unpack _); vm_compute; reflexivity).
  pose proof (makeOptionsReactive_installs merged_options before_makeOptionsReactive
                constructed Hfresh Hnd E) as (_ & _ & Hr & _ & H).
  split; [exact E |]. split; [exact Hr |]. split.
  - apply (H "MAX_STEPS" (num 20)). in_list.
  - apply (H "blurMix" (num 0.5)); in_list.
Defined.

Lemma constructor_merges_options_witness :
  exists s, constructor some_options [("BOX_BLUR", VBool false); ("width", num 640)]
              a_temporalResolvePass a_reflectionsPass (VRef 1) = Ok s
    /\ opt "BOX_BLUR" s = VBool true.
Proof.
  assert (E : exists s,
             constructor some_options [("BOX_BLUR", VBool false); ("width", num 640)]
               a_temporalResolvePass a_reflectionsPass (VRef 1) = Ok s)
    by (vm_compute; eexists; reflexivity).
  destruct E as [s E].
  destruct (constructor_merges_options _ _ _ _ _ _ E) as (_ & H & _).
  - simpl. repeat constructor; rewrite ?elem_of_cons, ?elem_of_nil;
      intros Hin; repeat destruct Hin as [Hin | Hin]; try discriminate Hin; exact Hin.
  - simpl. repeat constructor; rewrite ?elem_of_cons, ?elem_of_nil;
      intros Hin; repeat destruct Hin as [Hin | Hin]; try discriminate Hin; exact Hin.
  - exists s. auto.
Defined.

Lemma uniform_names_are_a_snapshot_witness :
  exists s', setter "envMapSize" (num 4) constructed = Ok s'
    /\ mat_uniforms (fullscreenMaterial (reflectionsPass s'))
       = mat_uniforms (fullscreenMaterial (reflectionsPass constructed)).
Proof.
  eexists. split; [vm_compute; reflexivity |].
  erewrite (uniform_names_are_a_snapshot "envMapSize" (num 4) constructed).
  - rewrite bool_decide_eq_false_2; [reflexivity |].
    rewrite constructed_keys. apply not_elem_of_dom. vm_compute. reflexivity.
  - reflexivity.
  - vm_compute. reflexivity.
  - vm_compute. reflexivity.
Defined.

Lemma scaled_width_is_lost_witness :
  hd_error (resizes (temporalResolvePass widened))
  = Some (@times retina (num 1000) (@devicePixelRatio retina), opt "height" widened)
  /\ ("MAX_STEPS" <> "width" -> "MAX_STEPS" <> "height" ->
      exists l, resizes (temporalResolvePass restepped)
                = l ++ (num 1000, opt "height" widened)
                  :: resizes (temporalResolvePass widened)).
Proof.
  assert (A1 : num 1000 <> VUndefined) by discriminate.
  assert (A2 : strict_eq (@times retina (num 1000) (@devicePixelRatio retina)) (num 1000)
               = false) by (vm_compute; reflexivity).
  assert (A3 : unchanged "width" (num 1000) constructed = false)
    by (vm_compute; reflexivity).
  assert (A4 : @setter retina "width" (num 1000) constructed = Ok widened)
    by (vm_compute; reflexivity).
  assert (A5 : "MAX_STEPS" ∉ noResetSamplesProperties).
  { intros Hin. apply list_elem_of_In in Hin. simpl in Hin.
    destruct Hin as [H | [H | [H | []]]]; discriminate H. }
  assert (A6 : unchanged "MAX_STEPS" (num 5) widened = false)
    by (vm_compute; reflexivity).
  assert (A7 : @setter retina "MAX_STEPS" (num 5) widened = Ok restepped)
    by (vm_compute; reflexivity).
  exact (@scaled_width_is_lost retina "MAX_STEPS" (num 1000) (num 5)
           constructed widened restepped A1 A2 A3 A4 A5 A6 A7).
Defined.

(** *** Text replacement *)

Section Strings.
Local Open Scope string_scope.

Lemma append_nil (y : string) : "" ++ y = y.
Proof. reflexivity. Qed.

Lemma append_cons (c : Ascii.ascii) (x y : string) : String c x ++ y = String c (x ++ y).
Proof. reflexivity. Qed.

Lemma append_assoc (x y z : string) : (x ++ y) ++ z = x ++ (y ++ z).
Proof.
  induction x as [| c x IH]; [reflexivity |]. rewrite !append_cons. by rewrite IH.
Qed.

Lemma length_append (x y : string) :
  String.length (x ++ y) = (String.length x + String.length y)%nat.
Proof.
  induction x as [| c x IH]; [reflexivity |]. rewrite append_cons. simpl. by rewrite IH.
Qed.

Lemma substring_all (x : string) : String.substring 0 (String.length x) x = x.
Proof. induction x as [| c x IH]; simpl; [reflexivity | by rewrite IH]. Qed.

Lemma prefix_append (pat post : string) : String.prefix pat (pat ++ post) = true.
Proof.
  induction pat as [| c pat IH]; [rewrite append_nil; by destruct post |].
  rewrite append_cons. simpl.
  destruct (Ascii.ascii_dec c c); [exact IH | contradiction].
Qed.

Lemma prefix_split (pat x : string) :
  String.prefix pat x = true ->
  x = pat ++ String.substring (String.length pat) (String.length x - String.length pat) x.
Proof.
  revert x. induction pat as [| c pat IH]; intros x H.
  - rewrite append_nil. simpl. by rewrite Nat.sub_0_r, substring_all.
  - destruct x as [| d x]; simpl in H; [discriminate |].
    destruct (Ascii.ascii_dec c d) as [-> |]; [| discriminate].
    rewrite append_cons. simpl. f_equal. by apply IH.
Qed.

Lemma replace_eq (pat rep x : string) :
  replace pat rep x
  = if String.prefix pat x
    then rep ++ String.substring (String.length pat) (String.length x - String.length pat) x
    else match x with
         | EmptyString => EmptyString
         | String c x' => String c (replace pat rep x')
         end.
Proof. destruct x; reflexivity. Qed.

(** [replace] rewrites one occurrence of the pattern, when there is one,
    and returns the text as it is otherwise. *)
Lemma replace_occurs (pat rep x : string) :
  occurs pat x ->
  exists pre post, x = pre ++ pat ++ post /\ replace pat rep x = pre ++ rep ++ post.
Proof.
  induction x as [| c x IH]; intros (pre & post & E); rewrite replace_eq.
  - destruct pre; [| discriminate E]. rewrite append_nil in E.
    destruct pat; [| discriminate E]. rewrite append_nil in E. subst post.
    exists "", "". auto.
  - destruct (String.prefix pat (String c x)) eqn:P.
    + exists "". eexists. rewrite !append_nil.
      split; [apply (prefix_split _ _ P) | reflexivity].
    + destruct pre as [| d pre].
      { rewrite append_nil in E. rewrite E, prefix_append in P. discriminate. }
      rewrite append_cons in E. injection E as -> E.
      destruct IH as (pre' & post' & E1 & E2); [by exists pre, post |].
      exists (String d pre'), post'. rewrite !append_cons. by rewrite <- E1, E2.
Qed.

Lemma replace_absent (pat rep x : string) : ~ occurs pat x -> replace pat rep x = x.
Proof.
  induction x as [| c x IH]; intros Hno; rewrite replace_eq.
  - destruct (String.prefix pat "") eqn:P; [| reflexivity].
    destruct pat; [| discriminate]. destruct Hno. by exists "", "".
  - destruct (String.prefix pat (String c x)) eqn:P.
    + destruct Hno. exists "". eexists. rewrite append_nil. apply (prefix_split _ _ P).
    + f_equal. apply IH. intros (pre & post & E). apply Hno.
      exists (String c pre), post. rewrite append_cons. by rewrite E.
Qed.

End Strings.

(** *** The box-projected environment map *)

Lemma unpatch_occurs (src : string) :
  occurs "worldPos = " src ->
  occurs "worldPos = " (unpatch_worldPos src)
  /\ String.length (unpatch_worldPos src) = (String.length src + 5)%nat.
Proof.
  intros Hocc. unfold unpatch_worldPos.
  destruct (replace_occurs "worldPos = " "vec3 worldPos = " src Hocc)
    as (pre & post & E1 & E2).
  rewrite E2, E1. split.
  - exists (pre +:+ "vec3 "), post.
    rewrite append_assoc. reflexivity.
  - rewrite !length_append. simpl. lia.
Qed.

(** X18.  [deleteeBoxProjectedEnvMapFallback] rewrites the shader on every
    call: on a fragment shader that contains the text [worldPos = ] each call
    that returns inserts [vec3 ] once more, so that the source after two calls
    is five characters longer than after one and ten longer than before. *)
Theorem delete_rewrites_on_every_call (s s1 s2 : t) :
  deleteeBoxProjectedEnvMapFallback s = Ok s1 ->
  deleteeBoxProjectedEnvMapFallback s1 = Ok s2 ->
  occurs "worldPos = " (fragmentShader (fullscreenMaterial (reflectionsPass s))) ->
  let src := fragmentShader (fullscreenMaterial (reflectionsPass s)) in
  let src1 := fragmentShader (fullscreenMaterial (reflectionsPass s1)) in
  let src2 := fragmentShader (fullscreenMaterial (reflectionsPass s2)) in
  String.length src1 = (String.length src + 5)%nat
  /\ String.length src2 = (String.length src + 10)%nat
  /\ src2 <> src1.
Proof.
  intros H1 H2 Hocc src src1 src2.
  apply delete_clears in H1 as (_ & _ & _ & E1).
  apply delete_clears in H2 as (_ & _ & _ & E2).
  destruct (unpatch_occurs _ Hocc) as (Hocc1 & L1). fold src in L1.
  assert (L1' : String.length src1 = (String.length src + 5)%nat)
    by (unfold src1; rewrite E1; exact L1).
  assert (L2 : String.length src2 = (String.length src1 + 5)%nat).
  { unfold src2, src1. rewrite E2. apply unpatch_occurs. rewrite E1. exact Hocc1. }
  split; [exact L1' |]. split; [lia |].
  intros Heq. rewrite Heq in L2. lia.
Qed.

Lemma delete_rewrites_on_every_call_witness :
  exists s1 s2,
    deleteeBoxProjectedEnvMapFallback shaded = Ok s1
    /\ deleteeBoxProjectedEnvMapFallback s1 = Ok s2
    /\ fragmentShader (fullscreenMaterial (reflectionsPass s2))
       <> fragmentShader (fullscreenMaterial (reflectionsPass s1)).
Proof.
  assert (E1 : exists s1, deleteeBoxProjectedEnvMapFallback shaded = Ok s1)
    by (vm_compute; eexists; reflexivity).
  destruct E1 as [s1 E1].
  assert (E2 : exists s2, deleteeBoxProjectedEnvMapFallback s1 = Ok s2).
  { destruct (delete_clears _ _ E1) as (_ & Hu & _).
    unfold deleteeBoxProjectedEnvMapFallback, write_uniform. rewrite Hu. simpl. eauto. }
  destruct E2 as [s2 E2].
  exists s1, s2. split; [exact E1 |]. split; [exact E2 |].
  apply (delete_rewrites_on_every_call shaded s1 s2 E1 E2).
  exists "varying vec3 vWorldPosition; void main() { vec3 ", "p; }". reflexivity.
Defined.

(** X19.  [deleteeBoxProjectedEnvMapFallback] throws exactly when the
    reflections pass has no [envMap] uniform.  When it returns, the flag is
    off, the uniform is [null], the define [BOX_PROJECTED_ENV_MAP] is gone and
    the material is flagged for recompilation; the options, the sample count,
    the last size, the effect's uniforms, the temporal resolve pass and the
    resize log are as before, and so is every other uniform and define. *)
Theorem delete_throws_iff (s : t) :
  let m := fullscreenMaterial (reflectionsPass s) in
  (deleteeBoxProjectedEnvMapFallback s = Throw TypeError
   <-> mat_uniforms m !! "envMap" = None)
  /\ (forall s', deleteeBoxProjectedEnvMapFallback s = Ok s' ->
      let m' := fullscreenMaterial (reflectionsPass s') in
      usingBoxProjectedEnvMap s' = false
      /\ mat_uniforms m' = <["envMap" := VNull]> (mat_uniforms m)
      /\ mat_defines m' = delete "BOX_PROJECTED_ENV_MAP" (mat_defines m)
      /\ mat_needsUpdate m' = true
      /\ options s' = options s /\ samples s' = samples s
      /\ lastSize s' = lastSize s /\ uniforms s' = uniforms s
      /\ temporalResolvePass s' = temporalResolvePass s
      /\ resizes (reflectionsPass s') = resizes (reflectionsPass s)).
Proof.
  intros m. unfold deleteeBoxProjectedEnvMapFallback, write_uniform. fold m.
  destruct (mat_uniforms m !! "envMap") eqn:E; simpl.
  - split; [split; discriminate |].
    intros s' H. apply Ok_inj in H. subst s'. simpl. repeat split.
  - split; [split; reflexivity |]. intros s' H. discriminate H.
Qed.

Lemma copy_into_uniform_returns {objects : Objects}
    (name : string) (v : value) (m : ShaderMaterial) :
  (copy_into_uniform name v m = Ok m
   <-> exists p, mat_uniforms m !! name = Some (VRef p) /\ copy p v = Ok tt)
  /\ (forall m', copy_into_uniform name v m = Ok m' -> m' = m).
Proof.
  unfold copy_into_uniform, call_copy.
  destruct (mat_uniforms m !! name) as [[| | | | | | p] |]; simpl;
    try (split; [split; [discriminate | intros (? & ? & _); discriminate]
                | intros ?; discriminate]).
  destruct (copy p v) as [[] |] eqn:E; simpl.
  - split; [split; eauto | intros m' H; by apply Ok_inj in H].
  - split; [split; [discriminate |] | intros ?; discriminate].
    intros (q & Hq & Hc). injection Hq as <-. rewrite E in Hc. discriminate Hc.
Qed.

(** X20.  [generateBoxProjectedEnvMapFallback] returns exactly when the
    copy into the cube camera's position returns, the texture of the PMREM
    generator is an object, and the material that [useBoxProjectedEnvMap]
    leaves has the uniforms [envMapPosition] and [envMapSize], each holding an
    object whose [copy] returns; a missing uniform, or one whose value is
    [null], makes it throw.  When it returns, it returns the environment map,
    the flag is on, the two uniforms hold the objects they held (lines 234-235
    copy into them), and the options, the effect's [samples] and uniforms, the
    last size, the temporal resolve pass and the resize log are as before:
    enabling the fallback calls no setter and no [setSize]. *)
Theorem generate_returns_iff {utils : Utils} {objects : Objects}
    (envMap position size envMapSize : value) (s : t) :
  let position' := or_default position (VRef new_Vector3.1) in
  let size' := or_default size (VRef new_Vector3.2) in
  let m0 := useBoxProjectedEnvMap (fullscreenMaterial (reflectionsPass s)) position' size' in
  let m := with_fragmentShader (patch_worldPos (fragmentShader m0)) m0 in
  ((exists r, generateBoxProjectedEnvMapFallback envMap position size envMapSize s = Ok r)
   <-> copy cubeCamera_position position' = Ok tt
       /\ (exists e, envMap = VRef e)
       /\ (exists p, mat_uniforms m0 !! "envMapPosition" = Some (VRef p)
                     /\ copy p position' = Ok tt)
       /\ (exists q, mat_uniforms m0 !! "envMapSize" = Some (VRef q)
                     /\ copy q size' = Ok tt))
  /\ (forall s' v,
      generateBoxProjectedEnvMapFallback envMap position size envMapSize s = Ok (s', v) ->
      v = envMap /\ usingBoxProjectedEnvMap s' = true
      /\ fullscreenMaterial (reflectionsPass s')
         = setupEnvMap m envMap (or_default envMapSize (num 512))
      /\ options s' = options s /\ samples s' = samples s
      /\ lastSize s' = lastSize s /\ uniforms s' = uniforms s
      /\ temporalResolvePass s' = temporalResolvePass s
      /\ resizes (reflectionsPass s') = resizes (reflectionsPass s)).
Proof.
  intros position' size' m0 m. unfold generateBoxProjectedEnvMapFallback.
  fold position' size' m0. fold m. simpl.
  destruct (copy_into_uniform_returns "envMapPosition" position' m) as [P1 P2].
  destruct (copy_into_uniform_returns "envMapSize" size' m) as [S1 S2].
  unfold m in P1, S1 at 2. simpl in P1, S1. fold m in P1, S1.
  destruct (copy cubeCamera_position position') as [[] |] eqn:Ec; simpl;
    [| split; [split; [intros [? ?]; discriminate | intros [? _]; discriminate]
              | intros ? ? ?; discriminate]].
  destruct envMap as [| | | | | | e]; simpl;
    try (split; [split; [intros [? ?]; discriminate | intros (_ & [? ?] & _); discriminate]
                | intros ? ? ?; discriminate]).
  destruct (copy_into_uniform "envMapPosition" position' m) as [m1 |] eqn:E1; simpl.
  - pose proof (P2 m1 eq_refl) as ->.
    destruct (copy_into_uniform "envMapSize" size' m) as [m2 |] eqn:E2; simpl.
    + pose proof (S2 m2 eq_refl) as ->.
      split.
      * split; [intros _ | eauto].
        split; [reflexivity |]. split; [eauto |].
        split; [by apply P1 | by apply S1].
      * intros s' v H. apply Ok_inj in H. injection H as <- <-. simpl. repeat split.
    + split; [split; [intros [? ?]; discriminate |] | intros ? ? ?; discriminate].
      intros (_ & _ & _ & Hq). apply S1 in Hq. discriminate Hq.
  - split; [split; [intros [? ?]; discriminate |] | intros ? ? ?; discriminate].
    intros (_ & _ & Hp & _). apply P1 in Hp. discriminate Hp.
Qed.

End EffectMore.

(* ===================================================================== *)
(** ** Properties of the per-frame update                                 *)
(* ===================================================================== *)

Module UpdateFacts.
Import JS SSREffect SSRUpdate EffectFacts.

Section Update.
Context {utils : Utils} {three : Three}.

Lemma texture_truthy (v : value) : instanceof_Texture v = true -> truthy v = true.
Proof. destruct v; simpl; try discriminate; reflexivity. Qed.

Lemma visit_found (envMap : value) (material : option MeshMaterial) :
  truthy envMap = true -> visit envMap material = envMap.
Proof. intros H. unfold visit. destruct material; [| reflexivity]. by rewrite H. Qed.

Lemma traverse_found (envMap : value) (materials : list (option MeshMaterial)) :
  truthy envMap = true -> fold_left visit materials envMap = envMap.
Proof.
  intros H. induction materials as [| m l IH]; simpl; [reflexivity |].
  by rewrite visit_found.
Qed.

Lemma visit_ineligible (envMap : value) (material : option MeshMaterial) :
  ineligible material -> visit envMap material = envMap.
Proof.
  intros Hno. unfold visit. destruct material as [m |]; [| reflexivity].
  destruct (truthy envMap) eqn:Et; simpl; [reflexivity |].
  destruct (truthy (SSRUpdate.envMap m)) eqn:Em; simpl; [reflexivity |].
  destruct (properties m !! "envMap") as [v |] eqn:Ep; [| reflexivity].
  destruct (instanceof_Texture v) eqn:Ei; [| reflexivity].
  destruct (Hno v). exists m. auto.
Qed.

Lemma traverse_ineligible (envMap : value) (materials : list (option MeshMaterial)) :
  Forall ineligible materials -> fold_left visit materials envMap = envMap.
Proof.
  induction 1 as [| m l Hm Hl IH]; simpl; [reflexivity |].
  by rewrite visit_ineligible.
Qed.

Lemma visit_eligible (envMap : value) (material : option MeshMaterial) (v : value) :
  truthy envMap = false -> eligible material v -> visit envMap material = v.
Proof.
  intros Et (m & -> & Em & Ep & Ei). unfold visit. by rewrite Et, Em, Ep, Ei.
Qed.

(** The environment map that the traversal of lines 269-275 ends with: the
    texture of the first eligible material. *)
Lemma traverse_first (pre post : list (option MeshMaterial))
    (material : option MeshMaterial) (v : value) :
  Forall ineligible pre -> eligible material v ->
  fold_left visit (pre ++ material :: post) VNull = v.
Proof.
  intros Hpre Hel. rewrite fold_left_app, (traverse_ineligible VNull pre Hpre). simpl.
  rewrite (visit_eligible VNull material v) by (reflexivity || exact Hel).
  apply traverse_found, texture_truthy. by destruct Hel as (m & _ & _ & _ & Hi).
Qed.

(** X21.  With no box-projected map in use and a scene environment with an
    image, [update] hands [setupEnvMap] the texture that the renderer keeps
    for the first material, in traversal order, that has no [envMap] of its
    own and for which that entry is a [Texture]; later such materials are
    ignored. *)
Theorem update_binds_first_texture (scene : Scene) (f : Frame)
    (pre post : list (option MeshMaterial)) (material : option MeshMaterial)
    (v height : value) :
  usingBoxProjectedEnvMap (effect f) = false ->
  truthy (environment scene) = true ->
  environment_image_height scene = Some height ->
  traverse (root scene) = pre ++ material :: post ->
  Forall ineligible pre ->
  eligible material v ->
  is_Some (uniforms (effect f) !! "samples") ->
  exists f', update scene f = Ok f'
    /\ fullscreenMaterial (reflectionsPass (effect f'))
       = setupEnvMap (fullscreenMaterial (reflectionsPass (effect f))) v height.
Proof.
  intros Hbox Henv Himg Htr Hpre Hel [u Hu].
  unfold update, bindEnvironment.
  rewrite Hbox, Henv, Htr, (traverse_first pre post material v Hpre Hel), Himg. simpl.
  rewrite (texture_truthy v) by (by destruct Hel as (m & _ & _ & _ & Hi)). simpl.
  unfold set_uniform. simpl. rewrite Hu. simpl. eauto.
Qed.

(** X22.  While the box-projected map is in use, or when the scene has no
    environment, or when no material of the scene is eligible, [update]
    leaves the reflections pass as it is. *)
Theorem update_keeps_reflectionsPass (scene : Scene) (f f' : Frame) :
  usingBoxProjectedEnvMap (effect f) = true
  \/ truthy (environment scene) = false
  \/ Forall ineligible (traverse (root scene)) ->
  update scene f = Ok f' ->
  reflectionsPass (effect f') = reflectionsPass (effect f).
Proof.
  intros Hcase. unfold update.
  assert (Hbind : bindEnvironment scene (effect f) = Ok (effect f)).
  { unfold bindEnvironment.
    destruct Hcase as [-> | [-> | Hno]]; simpl; try reflexivity.
    - by rewrite andb_false_r.
    - destruct (negb _ && _); [| reflexivity].
      by rewrite traverse_ineligible. }
  rewrite Hbind. simpl. unfold set_uniform.
  destruct (uniforms (effect f) !! "samples"); [| discriminate]. simpl.
  intros H. apply Ok_inj in H. by subst f'.
Qed.



End Update.

(** *** On the concrete scene *)

Lemma a_scene_traversal :
  traverse (root a_scene)
  = [None;
     Some {| envMap := VRef 5; properties := <["envMap" := VRef 7]> ∅ |};
     Some {| envMap := VUndefined; properties := ∅ |}]
    ++ Some {| envMap := VNull; properties := <["envMap" := VRef 7]> ∅ |}
    :: [Some {| envMap := VUndefined; properties := <["envMap" := VRef 8]> ∅ |}].
Proof. reflexivity. Qed.

Lemma update_binds_first_texture_witness :
  exists f', update a_scene a_frame = Ok f'
    /\ fullscreenMaterial (reflectionsPass (effect f'))
       = setupEnvMap (fullscreenMaterial (reflectionsPass (effect a_frame)))
           (VRef 7) (num 256).
Proof.
  assert (Hbox : usingBoxProjectedEnvMap (effect a_frame) = false)
    by (vm_compute; reflexivity).
  assert (Hu : is_Some (uniforms (effect a_frame) !! "samples"))
    by (vm_compute; eauto).
  assert (Hpre : Forall ineligible
            [None;
             Some {| envMap := VRef 5; properties := <["envMap" := VRef 7]> ∅ |};
             Some {| envMap := VUndefined; properties := ∅ |}]).
  { constructor; [| constructor; [| constructor; [| constructor]]];
      intros v (m & Hm & Ht & Hp & Hi); try discriminate Hm;
      injection Hm as <-; simpl in Ht, Hp; try discriminate Ht;
      rewrite lookup_empty in Hp; discriminate Hp. }
  assert (Hel : eligible
            (Some {| envMap := VNull; properties := <["envMap" := VRef 7]> ∅ |})
            (VRef 7)).
  { eexists. repeat split. }
  exact (update_binds_first_texture a_scene a_frame _ _ _ (VRef 7) (num 256)
           Hbox eq_refl eq_refl a_scene_traversal Hpre Hel Hu).
Defined.

Lemma update_keeps_reflectionsPass_witness :
  exists f', update {| root := root a_scene; environment := VNull;
                       environment_image_height := None |} a_frame = Ok f'
    /\ reflectionsPass (effect f') = reflectionsPass (effect a_frame).
Proof.
  assert (E : exists f', update {| root := root a_scene; environment := VNull;
                                   environment_image_height := None |} a_frame = Ok f')
    by (vm_compute; eexists; reflexivity).
  destruct E as [f' E]. exists f'. split; [exact E |].
  match type of E with
  | update ?scene _ = _ =>
      exact (update_keeps_reflectionsPass scene a_frame f'
               (or_intror (or_introl eq_refl)) E)
  end.
Defined.

End UpdateFacts.
